(** * A chat server: reply rules, storage and request handlers

    Shallow embedding of the chat application:
    - [server/routes.ts]: the HTTP handlers, among them the reply cascade of
      [POST /api/conversations/:id/messages];
    - [server/storage.ts]: [DatabaseStorage], the persistence gateway;
    - [server/auth.ts]: [requireAuth];
    - [client/src/main.tsx]: the throttled error log of the client.

    Texts are [string]s, one character per UTF-16 code unit; the embedding
    covers the texts whose code units are below 256, where [length],
    [substring], [toLowerCase] and the character classes agree with
    JavaScript's.  The two signs outside ASCII in the reply templates stand
    as the bytes the source file holds for them. *)

From Stdlib Require Import String Ascii List ZArith NArith Bool Lia.
From Stdlib Require Import Floats.SpecFloat.
From Stdlib Require Import Numbers.DecimalString Numbers.DecimalN.
Import ListNotations.

Open Scope string_scope.

(** ** JavaScript string operations *)

Module Js.

Definition nl : string := String "010"%char EmptyString.
Definition dquote : string := String "034"%char EmptyString.

Definition isEmpty (s : string) : bool :=
  match s with EmptyString => true | String _ _ => false end.

(** The code units below 256 that [toLowerCase] changes: [A] to [Z],
    and U+00C0 to U+00DE but for the multiplication sign U+00D7. *)
Definition isUpper (c : ascii) : bool :=
  let n := N_of_ascii c in
  (((65 <=? n) && (n <=? 90))
   || ((192 <=? n) && (n <=? 222) && negb (n =? 215)))%N.

Definition lowerChar (c : ascii) : ascii :=
  if isUpper c then ascii_of_N (N_of_ascii c + 32) else c.

(** [s.toLowerCase()] *)
Fixpoint toLowerCase (s : string) : string :=
  match s with
  | EmptyString => EmptyString
  | String c t => String (lowerChar c) (toLowerCase t)
  end.

(** [s.includes(needle)] *)
Fixpoint includes (s needle : string) : bool :=
  prefix needle s ||
  match s with
  | EmptyString => false
  | String _ t => includes t needle
  end.

(** [s.substring(0, n)] *)
Definition substring0 (n : nat) (s : string) : string := substring 0 n s.

Fixpoint filter (p : ascii -> bool) (s : string) : string :=
  match s with
  | EmptyString => EmptyString
  | String c t => if p c then String c (filter p t) else filter p t
  end.

Fixpoint forallb (p : ascii -> bool) (s : string) : bool :=
  match s with
  | EmptyString => true
  | String c t => p c && forallb p t
  end.

(** Longest prefix of characters satisfying [p], and what follows it. *)
Fixpoint span (p : ascii -> bool) (s : string) : string * string :=
  match s with
  | EmptyString => (EmptyString, EmptyString)
  | String c t =>
      if p c then let (a, b) := span p t in (String c a, b)
      else (EmptyString, s)
  end.

End Js.

(** ** Regular expressions

    The backtracking matcher of the engine, for the constructs the server's
    patterns use.  A match is searched from the leftmost position on; greedy
    quantifiers take as much as they can and give back on failure; the text a
    capture group matched is recorded in the order the groups close. *)

Module Regex.

Inductive regex :=
| Class (p : ascii -> bool)    (* a character class *)
| Cat (r1 r2 : regex)          (* r1 r2 *)
| Star (r : regex)             (* r*, greedy *)
| Opt (r : regex)              (* r?, greedy *)
| Group (r : regex)            (* (?:r) *)
| Capture (r : regex).         (* (r) *)

(** [r+] *)
Definition Plus (r : regex) : regex := Cat r (Star r).

Definition Captures : Type := list string.

Definition orElse {A} (a b : option A) : option A :=
  match a with Some _ => a | None => b end.

(** The characters of [s] before its suffix [rest]. *)
Definition consumed (s rest : string) : string :=
  substring 0 (String.length s - String.length rest) s.

(** Match [r] at the head of [s], then continue with [k] on what is left.
    An iteration of a star that consumes nothing is not repeated. *)
Fixpoint run (r : regex) (s : string) (caps : Captures)
  (k : string -> Captures -> option Captures) {struct r} : option Captures :=
  match r with
  | Class p =>
      match s with
      | String c t => if p c then k t caps else None
      | EmptyString => None
      end
  | Cat r1 r2 => run r1 s caps (fun s1 caps1 => run r2 s1 caps1 k)
  | Star r1 =>
      (fix loop (fuel : nat) (s : string) (caps : Captures) {struct fuel}
         : option Captures :=
         match fuel with
         | O => k s caps
         | S fuel' =>
             orElse
               (run r1 s caps
                  (fun s1 caps1 =>
                     if (String.length s1 <? String.length s)%nat
                     then loop fuel' s1 caps1
                     else None))
               (k s caps)
         end) (String.length s) s caps
  | Opt r1 => orElse (run r1 s caps k) (k s caps)
  | Group r1 => run r1 s caps k
  | Capture r1 =>
      run r1 s caps (fun s1 caps1 => k s1 (caps1 ++ [consumed s s1])%list)
  end.

(** [s.match(r)]: the captures of the leftmost match. *)
Fixpoint search (r : regex) (s : string) : option Captures :=
  orElse (run r s [] (fun _ caps => Some caps))
    match s with
    | EmptyString => None
    | String _ t => search r t
    end.

(** [\d] *)
Definition isDigit (c : ascii) : bool :=
  let n := N_of_ascii c in ((48 <=? n) && (n <=? 57))%N.

(** [\s], on the code units below 256: tab, line feed, vertical tab, form
    feed, carriage return, space and the no-break space U+00A0. *)
Definition isSpace (c : ascii) : bool :=
  let n := N_of_ascii c in
  (((9 <=? n) && (n <=? 13)) || (n =? 32) || (n =? 160))%N.

(** [[x*]] under the [i] flag *)
Definition isTimes (c : ascii) : bool :=
  let n := N_of_ascii c in ((n =? 120) || (n =? 88) || (n =? 42))%N.

(** [\.] *)
Definition isDot (c : ascii) : bool := (N_of_ascii c =? 46)%N.

(** [[0-9+\-*/().]] *)
Definition isMathChar (c : ascii) : bool :=
  let n := N_of_ascii c in
  (isDigit c || (n =? 43) || (n =? 45) || (n =? 42) || (n =? 47)
   || (n =? 40) || (n =? 41) || (n =? 46))%N.

(** [\d+(?:\.\d+)?] *)
Definition number : regex :=
  Cat (Plus (Class isDigit))
      (Opt (Group (Cat (Class isDot) (Plus (Class isDigit))))).

(** [/(\d+(?:\.\d+)?)\s*[x*]\s*(\d+(?:\.\d+)?)/i] *)
Definition product : regex :=
  Cat (Capture number)
    (Cat (Star (Class isSpace))
       (Cat (Class isTimes)
          (Cat (Star (Class isSpace))
             (Capture number)))).

(** [content.match(/(\d+(?:\.\d+)?)\s*[x*]\s*(\d+(?:\.\d+)?)/i)]:
    [mathMatch[1]] and [mathMatch[2]]. *)
Definition mathMatch (content : string) : option (string * string) :=
  match search product content with
  | Some [g1; g2] => Some (g1, g2)
  | _ => None
  end.

(** [content.replace(/[^0-9+\-*/().]/g, '')] *)
Definition cleanMath (content : string) : string :=
  Js.filter isMathChar content.

(** [/^[0-9+\-*/().]+$/.test(s)] *)
Definition isMathText (s : string) : bool :=
  negb (Js.isEmpty s) && Js.forallb isMathChar s.

End Regex.

(** ** Numbers of the product rule

    JavaScript numbers are IEEE-754 binary64 values: [spec_float] with
    precision 53 and maximal exponent 1024, rounded to nearest even. *)

Module Num.

Definition prec : Z := 53.
Definition emax : Z := 1024.

Definition number : Type := spec_float.

Definition digitValue (c : ascii) : N := (N_of_ascii c - 48)%N.

(** Value of a string of decimal digits. *)
Definition digitsValue (s : string) : N :=
  fold_left (fun acc c => (10 * acc + digitValue c)%N) (list_ascii_of_string s) 0%N.

(** The double nearest to [m / 10^k]. *)
Definition ofDecimal (m : N) (k : nat) : number :=
  match m with
  | N0 => S754_zero false
  | Npos p =>
      match k with
      | O => binary_normalize prec emax (Zpos p) 0 false
      | S _ =>
          SFdiv prec emax (S754_finite false p 0)
                (S754_finite false (Pos.pow 10 (Pos.of_nat k)) 0)
      end
  end.

(** [parseFloat(lit)] for a capture of [\d+(?:\.\d+)?]. *)
Definition parseFloat (lit : string) : number :=
  let (d1, r) := Js.span Regex.isDigit lit in
  match r with
  | String "."%char d2 => ofDecimal (digitsValue (d1 ++ d2)) (String.length d2)
  | _ => ofDecimal (digitsValue d1) 0
  end.

(** [a * b] *)
Definition mul (a b : number) : number := SFmul prec emax a b.

(** The integer a double denotes, when it denotes a natural number. *)
Definition toNatural (x : number) : option N :=
  match x with
  | S754_zero false => Some 0%N
  | S754_finite false m e =>
      match e with
      | Z0 => Some (Npos m)
      | Zpos k => Some (N.shiftl (Npos m) (Npos k))
      | Zneg k =>
          if (N.land (Npos m) (N.ones (Npos k)) =? 0)%N
          then Some (N.shiftr (Npos m) (Npos k))
          else None
      end
  | _ => None
  end.

Definition decimal (n : N) : string := NilEmpty.string_of_uint (N.to_uint n).

End Num.

(** [x.toLocaleString()].  A natural number below 1000 has no digit
    group to separate and no fraction to round: it is printed in decimal,
    in every locale with Latin digits.  Every other double is left to the
    formatter [other] of the platform and its locale. *)
Definition toLocaleStringWith (other : Num.number -> string) (x : Num.number)
  : string :=
  match Num.toNatural x with
  | Some n => if (n <? 1000)%N then Num.decimal n else other x
  | None => other x
  end.

(** ** Data model ([@shared/schema]) *)

Module User.
Record t := mk { id : string; username : string; password : string }.
End User.

Module Conversation.
Record t := mk {
  id : string;
  userId : string;
  title : string;
  createdAt : Z;
  updatedAt : Z }.
End Conversation.

Inductive Role := user | assistant.

Module Message.
Record t := mk {
  id : string;
  conversationId : string;
  content : string;
  role : Role;
  createdAt : Z }.
End Message.

(** [InsertUser], [InsertConversation] and [InsertMessage].  The reply
    cascade can leave [aiResponse] undefined, so the content handed to
    [createMessage] is optional. *)
Record InsertUser := { iu_username : string; iu_password : string }.
Record InsertConversation := { ic_title : option string; ic_userId : option string }.
Record InsertMessage := {
  im_conversationId : string;
  im_content : option string;
  im_role : Role }.

(** [Partial<Conversation>] as the handlers use it. *)
Record ConversationUpdate := { upd_title : option string; upd_updatedAt : option Z }.

(** JSON values of a request body. *)
Inductive JsValue :=
| JNull
| JBool (b : bool)
| JNumber (x : Num.number)
| JString (s : string)
| JObject.

Definition Body : Type := list (string * JsValue).

Fixpoint field (name : string) (body : Body) : option JsValue :=
  match body with
  | [] => None
  | (k, v) :: rest => if String.eqb k name then Some v else field name rest
  end.

(** [!v] for a property that may be missing *)
Definition falsy (v : option JsValue) : bool :=
  match v with
  | None | Some JNull | Some (JBool false) => true
  | Some (JNumber (S754_zero _)) | Some (JNumber S754_nan) => true
  | Some (JString s) => Js.isEmpty s
  | _ => false
  end.

(** ** What the server takes from its platform

    The engine, the libraries and the schema module are not part of the
    sources; the handlers are embedded over them. *)

Class Runtime := {
  (** [Number.prototype.toLocaleString()] of what is not a natural number
      below 1000 *)
  formatNumber : Num.number -> string;
  (** [eval(src).toLocaleString()]; [None] when [eval] throws or its value
      has no such method *)
  evalMath : string -> option string;
  (** [Date.prototype.toLocaleTimeString()], [toLocaleDateString()] of an
      instant in milliseconds *)
  toLocaleTimeString : Z -> string;
  toLocaleDateString : Z -> string;
  (** [jwt.verify(token, JWT_SECRET)]: the [userId] of the payload *)
  jwtVerify : string -> option string;
  (** [jwt.sign({ userId }, JWT_SECRET, { expiresIn: '7d' })] *)
  jwtSign : string -> string;
  (** [bcrypt.hash(password, 10)] *)
  bcryptHash : string -> string;
  (** [insertUserSchema.parse], [insertConversationSchema.parse]; [None]
      when they throw *)
  insertUserSchema : Body -> option InsertUser;
  insertConversationSchema : Body -> option InsertConversation;
  (** column default of [conversations.title] *)
  defaultTitle : string }.

(** ** The database and the clock

    The tables are lists of rows in insertion order.  [now] is the clock,
    read by [new Date()] and by the timestamp defaults of the tables.
    [nextId] numbers the generated row ids.  [faults] schedules the failures
    of the coming database statements: each statement consumes one entry and
    throws when it is [true]; an exhausted schedule means no failure. *)

Record World := {
  users : list User.t;
  conversations : list Conversation.t;
  messages : list Message.t;
  now : Z;
  nextId : N;
  faults : list bool }.

Definition setUsers (l : list User.t) (w : World) : World :=
  {| users := l; conversations := conversations w; messages := messages w;
     now := now w; nextId := nextId w; faults := faults w |}.
Definition setConversations (l : list Conversation.t) (w : World) : World :=
  {| users := users w; conversations := l; messages := messages w;
     now := now w; nextId := nextId w; faults := faults w |}.
Definition setMessages (l : list Message.t) (w : World) : World :=
  {| users := users w; conversations := conversations w; messages := l;
     now := now w; nextId := nextId w; faults := faults w |}.
Definition setNextId (n : N) (w : World) : World :=
  {| users := users w; conversations := conversations w; messages := messages w;
     now := now w; nextId := n; faults := faults w |}.
Definition setFaults (f : list bool) (w : World) : World :=
  {| users := users w; conversations := conversations w; messages := messages w;
     now := now w; nextId := nextId w; faults := f |}.

(** The store answers every statement. *)
Definition available (w : World) : Prop := faults w = [].

(** ** Computations: state and exceptions *)

Inductive Outcome (A : Type) :=
| Ok (a : A)
| Throw (e : string).
Arguments Ok {A} a.
Arguments Throw {A} e.

Definition M (A : Type) : Type := World -> Outcome A * World.

Definition ret {A} (a : A) : M A := fun w => (Ok a, w).

Definition throw {A} (e : string) : M A := fun w => (Throw e, w).

Definition bind {A B} (c : M A) (k : A -> M B) : M B :=
  fun w =>
    match c w with
    | (Ok a, w') => k a w'
    | (Throw e, w') => (Throw e, w')
    end.

(** [try { body } catch (e) { handler }] *)
Definition tryCatch {A} (body : M A) (handler : string -> M A) : M A :=
  fun w =>
    match body w with
    | (Ok a, w') => (Ok a, w')
    | (Throw e, w') => handler e w'
    end.

Definition get : M World := fun w => (Ok w, w).
Definition put (w : World) : M unit := fun _ => (Ok tt, w).

Declare Scope monad_scope.
Delimit Scope monad_scope with monad.
Notation "x <- c ;; k" := (bind c (fun x => k))
  (at level 61, c at next level, right associativity) : monad_scope.
Notation "c ;;; k" := (bind c (fun _ => k))
  (at level 61, right associativity) : monad_scope.
Open Scope monad_scope.

(** [new Date()] *)
Definition newDate : M Z := fun w => (Ok (now w), w).

(** One statement sent to the database. *)
Definition statement : M unit :=
  fun w =>
    match faults w with
    | [] => (Ok tt, w)
    | false :: rest => (Ok tt, setFaults rest w)
    | true :: rest => (Throw "database error", setFaults rest w)
    end.

(** A generated row id. *)
Definition freshId : M string :=
  fun w => (Ok (Num.decimal (nextId w)), setNextId (N.succ (nextId w)) w).

(** ** [DatabaseStorage] ([server/storage.ts]) *)

Module Storage.
Section WithRuntime.
Context {rt : Runtime}.

Definition userNamed (name : string) (u : User.t) : bool :=
  String.eqb (User.username u) name.

Definition conversationIs (id : string) (c : Conversation.t) : bool :=
  String.eqb (Conversation.id c) id.

Definition messageOf (conversationId : string) (m : Message.t) : bool :=
  String.eqb (Message.conversationId m) conversationId.

(** [ORDER BY created_at], ascending *)
Fixpoint insertByCreatedAt (m : Message.t) (l : list Message.t) : list Message.t :=
  match l with
  | [] => [m]
  | x :: t =>
      if (Message.createdAt m <=? Message.createdAt x)%Z then m :: l
      else x :: insertByCreatedAt m t
  end.

Definition orderByCreatedAt (l : list Message.t) : list Message.t :=
  fold_right insertByCreatedAt [] l.

Definition getUserByUsername (username : string) : M (option User.t) :=
  statement ;;;
  w <- get ;;
  ret (find (userNamed username) (users w)).

Definition createUser (userData : InsertUser) : M User.t :=
  let hashedPassword := bcryptHash (iu_password userData) in
  statement ;;;
  id <- freshId ;;
  w <- get ;;
  let user := User.mk id (iu_username userData) hashedPassword in
  put (setUsers (users w ++ [user]) w) ;;;
  ret user.

Definition getConversation (id : string) : M (option Conversation.t) :=
  statement ;;;
  w <- get ;;
  ret (find (conversationIs id) (conversations w)).

(** Modelled from the spec: every Conversation has exactly one owner.  The
    schema module, which declares the column, is not among the sources; a
    row without an owner is refused by the store.  The handler always
    supplies one. *)
Definition requireOwner (userId : option string) : M string :=
  match userId with
  | Some owner => ret owner
  | None => throw "null value in column user_id"
  end.

Definition createConversation (conversationData : InsertConversation)
  : M Conversation.t :=
  statement ;;;
  owner <- requireOwner (ic_userId conversationData) ;;
  id <- freshId ;;
  w <- get ;;
  let conversation :=
    Conversation.mk id owner
      (match ic_title conversationData with
       | Some t => t
       | None => defaultTitle
       end)
      (now w) (now w) in
  put (setConversations (conversations w ++ [conversation]) w) ;;;
  ret conversation.

(** [.set({ ...updates, updatedAt: new Date() })] on one row *)
Definition applyUpdate (updates : ConversationUpdate) (date : Z)
  (c : Conversation.t) : Conversation.t :=
  Conversation.mk (Conversation.id c) (Conversation.userId c)
    (match upd_title updates with
     | Some t => t
     | None => Conversation.title c
     end)
    (Conversation.createdAt c)
    date.

(** [UPDATE conversations SET ... WHERE id = ...] *)
Definition updateWhere (id : string) (updates : ConversationUpdate) (date : Z)
  (rows : list Conversation.t) : list Conversation.t :=
  map (fun c => if conversationIs id c then applyUpdate updates date c else c)
      rows.

Definition updateConversation (id : string) (updates : ConversationUpdate)
  : M (option Conversation.t) :=
  date <- newDate ;;
  statement ;;;
  w <- get ;;
  let rows := updateWhere id updates date (conversations w) in
  put (setConversations rows w) ;;;
  ret (find (conversationIs id) rows).

Definition deleteConversation (id : string) : M bool :=
  (* First delete all messages in the conversation *)
  statement ;;;
  w <- get ;;
  put (setMessages (List.filter (fun m => negb (messageOf id m)) (messages w)) w) ;;;
  (* Then delete the conversation *)
  statement ;;;
  w <- get ;;
  let rowCount := List.length (List.filter (conversationIs id) (conversations w)) in
  put (setConversations
         (List.filter (fun c => negb (conversationIs id c)) (conversations w)) w) ;;;
  ret (0 <? rowCount)%nat.

Definition getMessages (conversationId : string) : M (list Message.t) :=
  statement ;;;
  w <- get ;;
  ret (orderByCreatedAt (List.filter (messageOf conversationId) (messages w))).

(** Modelled from the spec: the content of a Message is text.  The schema
    module, which declares the column, is not among the sources; a row
    without content is refused by the store. *)
Definition requireContent (content : option string) : M string :=
  match content with
  | Some text => ret text
  | None => throw "null value in column content"
  end.

(** [db.insert(messages).values(messageData).returning()] *)
Definition insertMessage (messageData : InsertMessage) : M Message.t :=
  statement ;;;
  text <- requireContent (im_content messageData) ;;
  id <- freshId ;;
  w <- get ;;
  let message :=
    Message.mk id (im_conversationId messageData) text
      (im_role messageData) (now w) in
  put (setMessages (messages w ++ [message]) w) ;;;
  ret message.

Definition noUpdates : ConversationUpdate :=
  {| upd_title := None; upd_updatedAt := None |}.

Definition createMessage (messageData : InsertMessage) : M Message.t :=
  message <- insertMessage messageData ;;
  (* Update conversation's updatedAt *)
  updateConversation (im_conversationId messageData) noUpdates ;;;
  ret message.

End WithRuntime.
End Storage.

Arguments Storage.updateWhere : simpl never.
Arguments Storage.orderByCreatedAt : simpl never.

(** ** The reply cascade ([server/routes.ts], inside the message handler) *)

Module Reply.

Definition clarification : string :=
  "I can help with basic math calculations. Could you rephrase your question with a clearer mathematical expression?".

Definition greeting : string :=
  "Hello! I'm your AI assistant. How can I help you today?".

Definition status : string :=
  "I'm doing well, thank you for asking! I'm here to help you with any questions or tasks you have.".

Definition capabilities : string :=
  "I can help you with various tasks like:" ++ Js.nl ++ Js.nl ++
  "- **Math calculations** (try asking me to multiply large numbers!)" ++
  Js.nl ++ "- **Answering questions**" ++ Js.nl ++
  "- **Providing explanations**" ++ Js.nl ++ "- **Writing assistance**" ++
  Js.nl ++ "- **Problem solving**" ++ Js.nl ++
  "- **General conversation**" ++ Js.nl ++ Js.nl ++
  "What would you like help with?".

Definition gratitude : string :=
  "You're welcome! Is there anything else I can help you with?".

Definition apology : string :=
  "I'm sorry, I'm having trouble generating a response right now. Please try again in a moment.".

Definition fallback (content : string) : string :=
  "I understand you're asking about " ++ Js.dquote ++ content ++ Js.dquote ++
  ". I'm a demo AI assistant that can help with basic questions, math calculations, and general conversation." ++
  Js.nl ++ Js.nl ++ "**Try asking me:**" ++ Js.nl ++
  "- Math problems (like " ++ Js.dquote ++ "what is 123 x 456?" ++
  Js.dquote ++ ")" ++ Js.nl ++ "- " ++ Js.dquote ++ "What can you do?" ++
  Js.dquote ++ Js.nl ++ "- " ++ Js.dquote ++ "What time is it?" ++
  Js.dquote ++ Js.nl ++ "- General questions" ++ Js.nl ++ Js.nl ++
  "For advanced AI capabilities with real knowledge, you would need to connect to OpenAI or another AI service. This interface demonstrates all the ChatGPT-style features without requiring payment!".

Section WithRuntime.
Context {rt : Runtime}.

Definition toLocaleString (x : Num.number) : string :=
  toLocaleStringWith formatNumber x.

Definition product (g1 g2 : string) : string :=
  let num1 := Num.parseFloat g1 in
  let num2 := Num.parseFloat g2 in
  let result := Num.mul num1 num2 in
  "The answer is: **" ++ toLocaleString result ++ "**" ++ Js.nl ++ Js.nl ++
  "Calculation: " ++ toLocaleString num1 ++ " Ã— " ++ toLocaleString num2 ++
  " = " ++ toLocaleString result.

Definition evaluated (result : string) : string :=
  "The answer is: **" ++ result ++ "**".

Definition timeAndDate (now : Z) : string :=
  "The current time is: **" ++ toLocaleTimeString now ++ "**" ++ Js.nl ++
  "The current date is: **" ++ toLocaleDateString now ++ "**".

(** The condition of the math rule. *)
Definition mathRule (lowerContent : string) : bool :=
  Js.includes lowerContent "x" || Js.includes lowerContent "*"
  || Js.includes lowerContent "+" || Js.includes lowerContent "-"
  || Js.includes lowerContent "/".

(** The block guarded by the inner [try] of the math rule: [None] is
    [aiResponse] left undefined. *)
Definition mathAttempt (content : string) : M (option string) :=
  match Regex.mathMatch content with
  | Some (g1, g2) => ret (Some (product g1 g2))
  | None =>
      (* Try to evaluate other basic math *)
      let cleanMath := Regex.cleanMath content in
      if negb (Js.isEmpty cleanMath) && Regex.isMathText cleanMath then
        match evalMath cleanMath with
        | Some result => ret (Some (evaluated result))
        | None => throw "eval"
        end
      else ret None
  end.

(** The conditions of the other rules, on the lower-cased text. *)
Definition greetingRule (lowerContent : string) : bool :=
  Js.includes lowerContent "hello" || Js.includes lowerContent "hi".

Definition statusRule (lowerContent : string) : bool :=
  Js.includes lowerContent "how are you".

Definition capabilityRule (lowerContent : string) : bool :=
  Js.includes lowerContent "what can you do".

Definition gratitudeRule (lowerContent : string) : bool :=
  Js.includes lowerContent "thank".

Definition timeRule (lowerContent : string) : bool :=
  Js.includes lowerContent "time" || Js.includes lowerContent "date".

(** The value of [aiResponse] when the cascade is left. *)
Definition generateReply (content : string) : M (option string) :=
  let lowerContent := Js.toLowerCase content in
  (* Math calculations *)
  if mathRule lowerContent then
    tryCatch (mathAttempt content) (fun _ => ret (Some clarification))
  (* Greeting responses *)
  else if greetingRule lowerContent then
    ret (Some greeting)
  (* Status responses *)
  else if statusRule lowerContent then
    ret (Some status)
  (* Capability responses *)
  else if capabilityRule lowerContent then
    ret (Some capabilities)
  (* Gratitude responses *)
  else if gratitudeRule lowerContent then
    ret (Some gratitude)
  (* Time/date questions *)
  else if timeRule lowerContent then
    now <- newDate ;;
    ret (Some (timeAndDate now))
  (* Default helpful response *)
  else ret (Some (fallback content)).

(** *** The cascade as the specification words it

    An ordered list of rules, each a condition on the lower-cased text and
    a reply; the first rule whose condition holds answers, and the fallback
    answers when none does. *)

Definition Rule : Type := (string -> bool) * (string -> M (option string)).

Definition orderedRules : list Rule :=
  [ (mathRule,
     fun content =>
       tryCatch (mathAttempt content) (fun _ => ret (Some clarification)));
    (greetingRule, fun _ => ret (Some greeting));
    (statusRule, fun _ => ret (Some status));
    (capabilityRule, fun _ => ret (Some capabilities));
    (gratitudeRule, fun _ => ret (Some gratitude));
    (timeRule, fun _ => now <- newDate ;; ret (Some (timeAndDate now))) ].

Fixpoint firstMatch (rules : list Rule) (content : string) : M (option string) :=
  match rules with
  | [] => ret (Some (fallback content))
  | (condition, reply) :: rest =>
      if condition (Js.toLowerCase content) then reply content
      else firstMatch rest content
  end.

(** No rule of the cascade matches the text. *)
Definition matchesNoRule (content : string) : bool :=
  List.forallb
    (fun rule : Rule => negb (fst rule (Js.toLowerCase content))) orderedRules.

(** The time/date rule is the first to match the text. *)
Definition timeRuleAnswers (content : string) : bool :=
  let lowerContent := Js.toLowerCase content in
  negb (mathRule lowerContent) && negb (greetingRule lowerContent)
  && negb (statusRule lowerContent) && negb (capabilityRule lowerContent)
  && negb (gratitudeRule lowerContent) && timeRule lowerContent.

End WithRuntime.
End Reply.

(** ** Requests, responses and [requireAuth] ([server/auth.ts]) *)

Record Request := {
  authorization : option string;   (* req.headers.authorization *)
  param_id : string;               (* req.params.id *)
  body : Body }.

Inductive Payload :=
| PMessage (message : string)
| PUserToken (id username token : string)
| PConversation (conversation : Conversation.t)
| PMessages (messages : list Message.t)
| PChat (userMessage aiMessage : Message.t)
| PChatError (userMessage aiMessage : Message.t) (error : string).

Record Response := { status : nat; payload : Payload }.

(** [res.status(code).json(payload)]; [res.json] answers 200. *)
Definition respond (code : nat) (p : Payload) : M Response :=
  ret {| status := code; payload := p |}.

Module Auth.
Section WithRuntime.
Context {rt : Runtime}.

(** [authHeader?.startsWith('Bearer ') ? authHeader.slice(7) : null] *)
Definition bearerToken (authHeader : option string) : option string :=
  match authHeader with
  | Some h =>
      if prefix "Bearer " h then Some (substring 7 (String.length h - 7) h)
      else None
  | None => None
  end.

(** The user a request is made for: the one [requireAuth] stores in
    [req.userId] before it calls [next], if it does. *)
Definition caller (req : Request) : option string :=
  match bearerToken (authorization req) with
  | None => None
  | Some token => if Js.isEmpty token then None else jwtVerify token
  end.

(** The middleware; [next] receives [req.userId]. *)
Definition requireAuth (req : Request) (next : string -> M Response) : M Response :=
  match bearerToken (authorization req) with
  | None => respond 401 (PMessage "Authentication required")
  | Some token =>
      if Js.isEmpty token then respond 401 (PMessage "Authentication required")
      else
        match jwtVerify token with
        | None => respond 401 (PMessage "Invalid or expired token")
        | Some userId => next userId
        end
  end.

End WithRuntime.
End Auth.

(** ** The routes ([server/routes.ts]) *)

Module Routes.
Section WithRuntime.
Context {rt : Runtime}.

(** [POST /api/auth/register] *)
Definition register (req : Request) : M Response :=
  tryCatch
    (match insertUserSchema (body req) with
     | None => throw "ZodError"
     | Some userData =>
         (* Check if user already exists *)
         existingUser <- Storage.getUserByUsername (iu_username userData) ;;
         match existingUser with
         | Some _ => respond 400 (PMessage "Username already exists")
         | None =>
             user <- Storage.createUser userData ;;
             let token := jwtSign (User.id user) in
             respond 200 (PUserToken (User.id user) (User.username user) token)
         end
     end)
    (fun _ => respond 400 (PMessage "Invalid user data")).

(** [{ ...data, userId }] *)
Definition withUserId (data : InsertConversation) (userId : string)
  : InsertConversation :=
  {| ic_title := ic_title data; ic_userId := Some userId |}.

(** [POST /api/conversations] *)
Definition postConversation (req : Request) : M Response :=
  Auth.requireAuth req (fun userId =>
    tryCatch
      (match insertConversationSchema (body req) with
       | None => throw "ZodError"
       | Some data =>
           let conversationData := withUserId data userId in
           conversation <- Storage.createConversation conversationData ;;
           respond 200 (PConversation conversation)
       end)
      (fun _ => respond 400 (PMessage "Invalid conversation data"))).

(** [GET /api/conversations/:id] *)
Definition getConversation (req : Request) : M Response :=
  Auth.requireAuth req (fun userId =>
    tryCatch
      (conversation <- Storage.getConversation (param_id req) ;;
       match conversation with
       | None => respond 404 (PMessage "Conversation not found")
       | Some conversation =>
           (* Check if conversation belongs to the current user *)
           if negb (String.eqb (Conversation.userId conversation) userId) then
             respond 403 (PMessage "Access denied")
           else respond 200 (PConversation conversation)
       end)
      (fun _ => respond 500 (PMessage "Failed to fetch conversation"))).

(** [DELETE /api/conversations/:id] *)
Definition deleteConversation (req : Request) : M Response :=
  Auth.requireAuth req (fun userId =>
    tryCatch
      (conversation <- Storage.getConversation (param_id req) ;;
       match conversation with
       | None => respond 404 (PMessage "Conversation not found")
       | Some conversation =>
           if negb (String.eqb (Conversation.userId conversation) userId) then
             respond 403 (PMessage "Access denied")
           else
             deleted <- Storage.deleteConversation (param_id req) ;;
             if negb deleted then
               respond 404 (PMessage "Conversation not found")
             else respond 200 (PMessage "Conversation deleted successfully")
       end)
      (fun _ => respond 500 (PMessage "Failed to delete conversation"))).

(** [GET /api/conversations/:id/messages] *)
Definition getMessages (req : Request) : M Response :=
  Auth.requireAuth req (fun userId =>
    tryCatch
      (conversation <- Storage.getConversation (param_id req) ;;
       match conversation with
       | None => respond 404 (PMessage "Conversation not found")
       | Some conversation =>
           if negb (String.eqb (Conversation.userId conversation) userId) then
             respond 403 (PMessage "Access denied")
           else
             messages <- Storage.getMessages (param_id req) ;;
             respond 200 (PMessages messages)
       end)
      (fun _ => respond 500 (PMessage "Failed to fetch messages"))).

Definition isString (v : option JsValue) : bool :=
  match v with Some (JString _) => true | _ => false end.

Definition asString (v : option JsValue) : string :=
  match v with Some (JString s) => s | _ => EmptyString end.

(** [content.length > 50 ? content.substring(0, 50) + "..." : content] *)
Definition deriveTitle (content : string) : string :=
  if (50 <? String.length content)%nat
  then Js.substring0 50 content ++ "..."
  else content.

(** The inner [try] block of the message handler. *)
Definition replyAndRecord (conversationId content : string)
  (userMessage : Message.t) (messages : list Message.t) : M Response :=
  aiResponse <- Reply.generateReply content ;;
  (* Create AI message *)
  aiMessage <- Storage.createMessage
    {| im_conversationId := conversationId;
       im_content := aiResponse;
       im_role := assistant |} ;;
  (* Update conversation title if this is the first message *)
  (if (List.length messages =? 1)%nat then
     let title := deriveTitle content in
     Storage.updateConversation conversationId
       {| upd_title := Some title; upd_updatedAt := None |} ;;;
     ret tt
   else ret tt) ;;;
  (* Update conversation updatedAt *)
  date <- newDate ;;
  Storage.updateConversation conversationId
    {| upd_title := None; upd_updatedAt := Some date |} ;;;
  respond 200 (PChat userMessage aiMessage).

(** Its [catch] block. *)
Definition recoverReply (conversationId : string) (userMessage : Message.t)
  : M Response :=
  (* Create error message for user *)
  errorMessage <- Storage.createMessage
    {| im_conversationId := conversationId;
       im_content := Some Reply.apology;
       im_role := assistant |} ;;
  respond 500
    (PChatError userMessage errorMessage
       "Response generation temporarily unavailable").

(** [POST /api/conversations/:id/messages] *)
Definition postMessage (req : Request) : M Response :=
  Auth.requireAuth req (fun userId =>
    tryCatch
      (let content := field "content" (body req) in
       if falsy content || negb (isString content) then
         respond 400 (PMessage "Message content is required")
       else
         let content := asString content in
         let conversationId := param_id req in
         (* Verify conversation exists and belongs to user *)
         conversation <- Storage.getConversation conversationId ;;
         match conversation with
         | None => respond 404 (PMessage "Conversation not found")
         | Some conversation =>
             if negb (String.eqb (Conversation.userId conversation) userId) then
               respond 403 (PMessage "Access denied")
             else
               (* Create user message *)
               userMessage <- Storage.createMessage
                 {| im_conversationId := conversationId;
                    im_content := Some content;
                    im_role := user |} ;;
               (* Get conversation history for context *)
               messages <- Storage.getMessages conversationId ;;
               tryCatch
                 (replyAndRecord conversationId content userMessage messages)
                 (fun _ => recoverReply conversationId userMessage)
         end)
      (fun _ => respond 500 (PMessage "Failed to process message"))).

End WithRuntime.
End Routes.

(** ** A small platform to run the server on

    An instance of [Runtime] for running the handlers on examples, in the
    [en-US] locale: number formatting rounds the exact value of the double
    to three fraction digits and groups the digits by three (ECMA-402);
    [eval] knows decimal integer literals only and refuses every other text;
    times are UTC; a token is its user id behind a fixed prefix. *)

Module Demo.

(** Groups of three digits, from the right, separated by commas. *)
Fixpoint group3 (rev_digits : list ascii) : list ascii :=
  match rev_digits with
  | a :: b :: c :: rest =>
      match rest with
      | [] => [a; b; c]
      | _ :: _ => a :: b :: c :: ","%char :: group3 rest
      end
  | _ => rev_digits
  end.

Definition grouped (n : N) : string :=
  string_of_list_ascii (rev (group3 (rev (list_ascii_of_string (Num.decimal n))))).

Definition pad (width : nat) (s : string) : string :=
  string_of_list_ascii (repeat "0"%char (width - String.length s)) ++ s.

Fixpoint dropTrailingZeros (rev_digits : list ascii) : list ascii :=
  match rev_digits with
  | "0"%char :: rest => dropTrailingZeros rest
  | _ => rev_digits
  end.

(** Thousandths nearest to [m * 2^e], ties upwards. *)
Definition thousandths (m : positive) (e : Z) : N :=
  match e with
  | Zneg k =>
      let scaled := (Npos m * 1000)%N in
      let half := N.shiftl 1 (Npos k - 1) in
      N.shiftr (scaled + half) (Npos k)
  | _ => (N.shiftl (Npos m) (Z.to_N e) * 1000)%N
  end.

Definition formatNumber (x : Num.number) : string :=
  match x with
  | S754_zero s => if s then "-0" else "0"
  | S754_infinity s => if s then "-∞" else "∞"
  | S754_nan => "NaN"
  | S754_finite s m e =>
      let t := thousandths m e in
      let whole := grouped (t / 1000) in
      let fraction :=
        string_of_list_ascii
          (rev (dropTrailingZeros
                  (rev (list_ascii_of_string (pad 3 (Num.decimal (t mod 1000))))))) in
      (if s then "-" else EmptyString) ++ whole ++
      (if Js.isEmpty fraction then EmptyString else "." ++ fraction)
  end.

Definition isLiteral (s : string) : bool :=
  Js.forallb Regex.isDigit s &&
  match s with
  | EmptyString => false
  | String "0"%char (String _ _) => false
  | _ => true
  end.

Definition evalMath (src : string) : option string :=
  if isLiteral src
  then Some (toLocaleStringWith formatNumber (Num.parseFloat src))
  else None.

Definition toLocaleTimeString (ms : Z) : string :=
  let secs := ((ms / 1000) mod 86400)%Z in
  let h := (secs / 3600)%Z in
  let h12 := (if (h mod 12 =? 0)%Z then 12 else h mod 12)%Z in
  Num.decimal (Z.to_N h12) ++ ":" ++
  pad 2 (Num.decimal (Z.to_N ((secs / 60) mod 60))) ++ ":" ++
  pad 2 (Num.decimal (Z.to_N (secs mod 60))) ++
  (if (h <? 12)%Z then " AM" else " PM").

(** Day, month and year of a count of days since 1970-01-01. *)
Definition civil (days : Z) : Z * Z * Z :=
  let z := (days + 719468)%Z in
  let era := (z / 146097)%Z in
  let doe := (z - era * 146097)%Z in
  let yoe := ((doe - doe / 1460 + doe / 36524 - doe / 146096) / 365)%Z in
  let doy := (doe - (365 * yoe + yoe / 4 - yoe / 100))%Z in
  let mp := ((5 * doy + 2) / 153)%Z in
  let d := (doy - (153 * mp + 2) / 5 + 1)%Z in
  let m := (if (mp <? 10)%Z then mp + 3 else mp - 9)%Z in
  let y := (yoe + era * 400 + (if (m <=? 2)%Z then 1 else 0))%Z in
  (d, m, y).

Definition toLocaleDateString (ms : Z) : string :=
  let '(d, m, y) := civil (ms / 86400000) in
  Num.decimal (Z.to_N m) ++ "/" ++ Num.decimal (Z.to_N d) ++ "/" ++
  Num.decimal (Z.to_N y).

Definition jwtSign (userId : string) : string := "jwt." ++ userId.

Definition jwtVerify (token : string) : option string :=
  if prefix "jwt." token
  then Some (substring 4 (String.length token - 4) token)
  else None.

Definition stringField (name : string) (b : Body) : option string :=
  match field name b with
  | Some (JString s) => Some s
  | _ => None
  end.

Definition insertUserSchema (b : Body) : option InsertUser :=
  match stringField "username" b, stringField "password" b with
  | Some u, Some p => Some {| iu_username := u; iu_password := p |}
  | _, _ => None
  end.

Definition insertConversationSchema (b : Body) : option InsertConversation :=
  Some {| ic_title := stringField "title" b; ic_userId := stringField "userId" b |}.

#[export] Instance runtime : Runtime :=
  Build_Runtime formatNumber evalMath toLocaleTimeString toLocaleDateString
    jwtVerify jwtSign (fun password => "$2a$10$" ++ password)
    insertUserSchema insertConversationSchema "New Conversation".

Definition emptyWorld : World :=
  {| users := []; conversations := []; messages := [];
     now := 1700000000000; nextId := 1; faults := [] |}.

(** A store with two users and one conversation of the first. *)
Definition chat : Conversation.t :=
  Conversation.mk "c1" "u1" "New Conversation" 1699999990000 1699999990000.

Definition world : World :=
  {| users := [User.mk "u1" "alice" "$2a$10$secret";
               User.mk "u2" "bob" "$2a$10$hunter2"];
     conversations := [chat]; messages := [];
     now := 1700000000000; nextId := 3; faults := [] |}.

(** A request of user [u], on the conversation [id]. *)
Definition request (u id : string) (b : Body) : Request :=
  {| authorization := Some ("Bearer jwt." ++ u); param_id := id; body := b |}.

(** The same store once a message was sent and answered. *)
Definition chatting : World :=
  {| users := users world;
     conversations :=
       [Conversation.mk "c1" "u1" "hello" 1699999990000 1699999995000];
     messages :=
       [Message.mk "3" "c1" "hello" user 1699999995000;
        Message.mk "4" "c1" Reply.greeting assistant 1699999995000];
     now := 1700000000000; nextId := 5; faults := [] |}.

(** The body of a message request. *)
Definition saying (text : string) : Body := [("content", JString text)].

End Demo.

(** ** Derived notions, used to state the properties *)

(** The world at another instant. *)
Definition atTime (t : Z) (w : World) : World :=
  {| users := users w; conversations := conversations w; messages := messages w;
     now := t; nextId := nextId w; faults := faults w |}.

(** The row a message insertion creates. *)
Definition insertedMessage (conversationId text : string) (role : Role)
  (w : World) : Message.t :=
  Message.mk (Num.decimal (nextId w)) conversationId text role (now w).

Definition afterInsert (m : Message.t) (w : World) : World :=
  setMessages (messages w ++ [m]) (setNextId (N.succ (nextId w)) w).

Definition afterCreate (m : Message.t) (w : World) : World :=
  setConversations
    (Storage.updateWhere (Message.conversationId m) Storage.noUpdates (now w)
       (conversations w))
    (afterInsert m w).

(** A computation relates every world it starts in to the world it
    leaves, whether it returns or throws. *)
Definition preserves (R : World -> World -> Prop) {A} (c : M A) : Prop :=
  forall w, R w (snd (c w)).

(** No message is lost. *)
Definition messagesKept (w w' : World) : Prop :=
  incl (messages w) (messages w').

Definition keepsMessages {A} (c : M A) : Prop := preserves messagesKept c.

(** No conversation carries an updated timestamp ahead of the clock. *)
Definition stampsInPast (w : World) : Prop :=
  Forall (fun c => (Conversation.updatedAt c <= now w)%Z) (conversations w).

Definition stampsKept (w w' : World) : Prop :=
  stampsInPast w -> stampsInPast w'.

Definition keepsStamps {A} (c : M A) : Prop := preserves stampsKept c.

Create HintDb keeps.

(** Messages of a conversation in the store. *)
Definition messageCount (id : string) (w : World) : nat :=
  List.length (List.filter (Storage.messageOf id) (messages w)).

Definition titleOf (id : string) (w : World) : option string :=
  option_map Conversation.title
    (find (Storage.conversationIs id) (conversations w)).

(** The world after the inner block of the message handler has run to its
    end. *)
Definition afterReply (id content : string) (aiMessage : Message.t)
  (listed : list Message.t) (w : World) : World :=
  let w1 := afterCreate aiMessage w in
  let w2 :=
    if (List.length listed =? 1)%nat then
      setConversations
        (Storage.updateWhere id
           {| upd_title := Some (Routes.deriveTitle content);
              upd_updatedAt := None |} (now w) (conversations w1)) w1
    else w1 in
  setConversations
    (Storage.updateWhere id
       {| upd_title := None; upd_updatedAt := Some (now w) |} (now w)
       (conversations w2)) w2.

(** The text of the assistant's message in a response, and a message
    sent to the example conversation by its owner. *)
Definition replyOf (r : Outcome Response * World) : option string :=
  match fst r with
  | Ok {| payload := PChat _ aiMessage |} => Some (Message.content aiMessage)
  | Ok {| payload := PChatError _ aiMessage _ |} =>
      Some (Message.content aiMessage)
  | _ => None
  end.

Definition send (text : string) (w : World) : Outcome Response * World :=
  Routes.postMessage (rt := Demo.runtime)
    (Demo.request "u1" "c1" (Demo.saying text)) w.

(** ** The rest of the store and of the routes

    The operations of [DatabaseStorage] and the routes that the handlers
    above do not use. *)

(** [LoginUser] *)
Record LoginUser := { lu_username : string; lu_password : string }.

(** What the login takes from its platform. *)
Class Credentials := {
  (** [bcrypt.compare(password, hash)] *)
  bcryptCompare : string -> string -> bool;
  (** [loginUserSchema.parse]; [None] when it throws *)
  loginUserSchema : Body -> option LoginUser }.

Module Store.
Section WithCredentials.
Context {cr : Credentials}.

Definition userIs (id : string) (u : User.t) : bool :=
  String.eqb (User.id u) id.

Definition ownedBy (userId : string) (c : Conversation.t) : bool :=
  String.eqb (Conversation.userId c) userId.

Definition messageIs (id : string) (m : Message.t) : bool :=
  String.eqb (Message.id m) id.

Definition getUser (id : string) : M (option User.t) :=
  statement ;;;
  w <- get ;;
  ret (find (userIs id) (users w)).

Definition authenticateUser (credentials : LoginUser) : M (option User.t) :=
  found <- Storage.getUserByUsername (lu_username credentials) ;;
  match found with
  | None => ret None
  | Some u =>
      let isPasswordValid :=
        bcryptCompare (lu_password credentials) (User.password u) in
      if negb isPasswordValid then ret None else ret (Some u)
  end.

(** [ORDER BY updated_at DESC] *)
Fixpoint insertByUpdatedAt (c : Conversation.t) (l : list Conversation.t)
  : list Conversation.t :=
  match l with
  | [] => [c]
  | x :: t =>
      if (Conversation.updatedAt x <=? Conversation.updatedAt c)%Z then c :: l
      else x :: insertByUpdatedAt c t
  end.

Definition orderByUpdatedAtDesc (l : list Conversation.t) : list Conversation.t :=
  fold_right insertByUpdatedAt [] l.

Definition getConversations (userId : string) : M (list Conversation.t) :=
  statement ;;;
  w <- get ;;
  ret (orderByUpdatedAtDesc (List.filter (ownedBy userId) (conversations w))).

Definition getMessage (id : string) : M (option Message.t) :=
  statement ;;;
  w <- get ;;
  ret (find (messageIs id) (messages w)).

End WithCredentials.
End Store.

Arguments Store.orderByUpdatedAtDesc : simpl never.

Module Rest.

(** The bodies these routes answer with. *)
Inductive Json :=
| JMessage (message : string)
| JUser (id username : string)
| JUserToken (id username token : string)
| JConversations (conversations : list Conversation.t).

Record Answer := { code : nat; json : Json }.

Definition answer (c : nat) (j : Json) : M Answer :=
  ret {| code := c; json := j |}.

Section WithPlatform.
Context {rt : Runtime} {cr : Credentials}.

(** [requireAuth], whatever the type of the responses: [reject] answers
    401 with a message. *)
Definition requireAuth {R} (reject : string -> M R) (req : Request)
  (next : string -> M R) : M R :=
  match Auth.bearerToken (authorization req) with
  | None => reject "Authentication required"
  | Some token =>
      if Js.isEmpty token then reject "Authentication required"
      else
        match jwtVerify token with
        | None => reject "Invalid or expired token"
        | Some userId => next userId
        end
  end.

Definition unauthorized (message : string) : M Answer :=
  answer 401 (JMessage message).

(** [POST /api/auth/login] *)
Definition login (req : Request) : M Answer :=
  tryCatch
    (match loginUserSchema (body req) with
     | None => throw "ZodError"
     | Some credentials =>
         found <- Store.authenticateUser credentials ;;
         match found with
         | None => answer 401 (JMessage "Invalid username or password")
         | Some u =>
             let token := jwtSign (User.id u) in
             answer 200 (JUserToken (User.id u) (User.username u) token)
         end
     end)
    (fun _ => answer 400 (JMessage "Invalid login data")).

(** [POST /api/auth/logout] *)
Definition logout (req : Request) : M Answer :=
  (* With JWT, logout is handled client-side by removing the token *)
  answer 200 (JMessage "Logged out successfully").

(** [GET /api/auth/me] *)
Definition me (req : Request) : M Answer :=
  requireAuth unauthorized req (fun userId =>
    tryCatch
      (found <- Store.getUser userId ;;
       match found with
       | None => answer 404 (JMessage "User not found")
       | Some u => answer 200 (JUser (User.id u) (User.username u))
       end)
      (fun _ => answer 500 (JMessage "Failed to fetch user"))).

(** [GET /api/conversations] *)
Definition getConversations (req : Request) : M Answer :=
  requireAuth unauthorized req (fun userId =>
    tryCatch
      (conversations <- Store.getConversations userId ;;
       answer 200 (JConversations conversations))
      (fun _ => answer 500 (JMessage "Failed to fetch conversations"))).

End WithPlatform.
End Rest.

(** ** The error log of the client ([client/src/main.tsx])

    Two listeners share one throttle: an error is logged when more than a
    second has passed since the last logged one. *)

Module Client.

Definition ERROR_THROTTLE_MS : Z := 1000.

Inductive Event := UnhandledRejection | ErrorEvent.

(** What a listener did: whether it logged, and whether it called
    [event.preventDefault()]. *)
Record Effect := { logged : bool; defaultPrevented : bool }.

(** One event, at the instant [now] of [Date.now()]; the state is
    [lastErrorTime]. *)
Definition listener (ev : Event) (now lastErrorTime : Z) : Effect * Z :=
  let prevented :=
    match ev with UnhandledRejection => true | ErrorEvent => false end in
  if (ERROR_THROTTLE_MS <? now - lastErrorTime)%Z
  then ({| logged := true; defaultPrevented := prevented |}, now)
  else ({| logged := false; defaultPrevented := prevented |}, lastErrorTime).

(** The instants at which a sequence of events is logged, and the state
    left. *)
Fixpoint logTimes (events : list (Event * Z)) (lastErrorTime : Z)
  : list Z * Z :=
  match events with
  | [] => ([], lastErrorTime)
  | (ev, now) :: rest =>
      let (effect, last') := listener ev now lastErrorTime in
      let (times, final) := logTimes rest last' in
      (if logged effect then now :: times else times, final)
  end.

End Client.

(** The credentials of the example platform: the hash is compared as it
    was made; a login body is a registration body. *)
Module DemoLogin.

Definition bcryptCompare (password hash : string) : bool :=
  String.eqb hash (bcryptHash (Runtime := Demo.runtime) password).

Definition loginUserSchema (b : Body) : option LoginUser :=
  match Demo.stringField "username" b, Demo.stringField "password" b with
  | Some u, Some p => Some {| lu_username := u; lu_password := p |}
  | _, _ => None
  end.

#[export] Instance credentials : Credentials :=
  Build_Credentials bcryptCompare loginUserSchema.

(** A registration or login body. *)
Definition account (username password : string) : Body :=
  [("username", JString username); ("password", JString password)].

End DemoLogin.

(** The tables and the clock are the same in two worlds. *)
Definition sameTables (w w' : World) : Prop :=
  users w' = users w /\ conversations w' = conversations w
  /\ messages w' = messages w /\ now w' = now w.

(** The messages of [w'] are those of [w] followed by messages that
    satisfy [P]. *)
Definition grownBy (P : Message.t -> Prop) (w w' : World) : Prop :=
  exists added, messages w' = (messages w ++ added)%list /\ Forall P added.

(** The 401 message of [requireAuth] for a request it turns away. *)
Definition rejection (req : Request) : string :=
  match Auth.bearerToken (authorization req) with
  | Some (String _ _) => "Invalid or expired token"
  | _ => "Authentication required"
  end.

(** A computation that returns returns a value that satisfies [Q]. *)
Definition returns {A} (Q : A -> Prop) (c : M A) : Prop :=
  forall w a w', c w = (Ok a, w') -> Q a.

(** A computation always returns, and a value that satisfies [Q]: no
    exception leaves it. *)
Definition answers {A} (Q : A -> Prop) (c : M A) : Prop :=
  forall w, exists a w', c w = (Ok a, w') /\ Q a.

Definition statusIn (codes : list nat) (r : Response) : Prop :=
  In (status r) codes.

Definition codeIn (codes : list nat) (r : Rest.Answer) : Prop :=
  In (Rest.code r) codes.

(** The messages of one conversation. *)
Definition inConversation (id : string) (m : Message.t) : Prop :=
  Message.conversationId m = id.

(** What sending a message may change: the users stay, and the messages
    grow by messages of the conversation [id]. *)
Definition postedTo (id : string) (w w' : World) : Prop :=
  users w' = users w /\ grownBy (inConversation id) w w'.

From Stdlib Require Import Sorting.Sorted Sorting.Permutation.



(** What a deletion of the conversation [id] leaves alone: the users, the
    conversations with another id and their messages. *)
Definition othersKept (id : string) (w w' : World) : Prop :=
  users w' = users w
  /\ forall other,
       other <> id ->
       List.filter (Storage.conversationIs other) (conversations w')
       = List.filter (Storage.conversationIs other) (conversations w)
       /\ List.filter (Storage.messageOf other) (messages w')
          = List.filter (Storage.messageOf other) (messages w).

(** The text of a product question and of its answer. *)
Definition productQuestion (a b : N) : string :=
  Num.decimal a ++ " x " ++ Num.decimal b.

Definition productAnswer (a b : N) : string :=
  "The answer is: **" ++ Num.decimal (a * b) ++ "**" ++ Js.nl ++ Js.nl ++
  "Calculation: " ++ Num.decimal a ++ " Ã— " ++ Num.decimal b ++
  " = " ++ Num.decimal (a * b).

(** The naturals below [n]. *)
Definition below (n : nat) : list N := map N.of_nat (seq 0 n).

(** The largest second factor that keeps the product below 1000. *)
Definition lastFactor (a : N) : N :=
  if (a =? 0)%N then 999%N else (999 / a)%N.

(** The question [a x b] gets the answer with the exact product. *)
Definition productChecked {rt : Runtime} (w : World) (a b : N) : bool :=
  match fst (Reply.generateReply (productQuestion a b) w) with
  | Ok (Some reply) => String.eqb reply (productAnswer a b)
  | _ => false
  end.


(** The user a registration stores. *)
Definition registered (userData : InsertUser) {rt : Runtime} (w : World) : User.t :=
  User.mk (Num.decimal (nextId w)) (iu_username userData)
    (bcryptHash (iu_password userData)).

(** What identifies a conversation and never changes: its id, its owner
    and its creation time. *)
Definition identity (c : Conversation.t) : string * string * Z :=
  (Conversation.id c, Conversation.userId c, Conversation.createdAt c).

(** The rows of the conversations are the same, in the same order, up to
    their titles and updated timestamps; the users are the same. *)
Definition identitiesKept (w w' : World) : Prop :=
  users w' = users w
  /\ map identity (conversations w') = map identity (conversations w).

(** Each instant is more than the throttle after the one before it. *)
Fixpoint spaced (previous : Z) (times : list Z) : Prop :=
  match times with
  | [] => True
  | t :: rest => (previous + Client.ERROR_THROTTLE_MS < t)%Z /\ spaced t rest
  end.

(** The strings a regular expression matches. *)
Inductive denotes : Regex.regex -> string -> Prop :=
| denotes_class p c :
    p c = true -> denotes (Regex.Class p) (String c EmptyString)
| denotes_cat r1 r2 a b :
    denotes r1 a -> denotes r2 b -> denotes (Regex.Cat r1 r2) (a ++ b)
| denotes_star_nil r : denotes (Regex.Star r) EmptyString
| denotes_star_cons r a b :
    denotes r a -> denotes (Regex.Star r) b -> denotes (Regex.Star r) (a ++ b)
| denotes_opt_nil r : denotes (Regex.Opt r) EmptyString
| denotes_opt r a : denotes r a -> denotes (Regex.Opt r) a
| denotes_group r a : denotes r a -> denotes (Regex.Group r) a
| denotes_capture r a : denotes r a -> denotes (Regex.Capture r) a.

(** The expression has no capturing group. *)
Fixpoint captureFree (r : Regex.regex) : bool :=
  match r with
  | Regex.Class _ => true
  | Regex.Cat r1 r2 => captureFree r1 && captureFree r2
  | Regex.Star r1 | Regex.Opt r1 | Regex.Group r1 => captureFree r1
  | Regex.Capture _ => false
  end.

(** One decimal digit or more. *)
Definition digits (s : string) : bool :=
  negb (Js.isEmpty s) && Js.forallb Regex.isDigit s.

(** Digits, then possibly a dot and digits: what [parseFloat] is given. *)
Definition numeral (s : string) : bool :=
  let (whole, rest) := Js.span Regex.isDigit s in
  negb (Js.isEmpty whole)
  && match rest with
     | EmptyString => true
     | String c fraction => Regex.isDot c && digits fraction
     end.

(** * Properties *)

(** ** The expressions and numbers of the math rule, on examples *)

Example mathMatch_ex1 :
  Regex.mathMatch "what is 12 x 4?" = Some ("12", "4").
Proof. reflexivity. Qed.

Example mathMatch_ex2 :
  Regex.mathMatch "1.5.25 X3.x" = Some ("5.25", "3").
Proof. reflexivity. Qed.

Example mathMatch_ex3 : Regex.mathMatch "explain 3 - 4" = None.
Proof. reflexivity. Qed.

Example mathMatch_ex4 : Regex.mathMatch "2*3 and 4 x 5" = Some ("2", "3").
Proof. reflexivity. Qed.

Example mathMatch_ex5 : Regex.mathMatch "12.x4" = None.
Proof. reflexivity. Qed.

Example mathMatch_ex6 : Regex.mathMatch "7   X" = None.
Proof. reflexivity. Qed.

(** A no-break space is white space to the pattern. *)
Example mathMatch_no_break_space :
  Regex.mathMatch
    ("12" ++ String "160"%char ("x" ++ String "160"%char "4"))
  = Some ("12", "4").
Proof. reflexivity. Qed.

(** [toLowerCase] on letters above 127: U+00C9 becomes U+00E9, the
    multiplication sign U+00D7 stays. *)
Example toLowerCase_accented :
  Js.toLowerCase (String "201"%char (String "215"%char "X"))
  = String "233"%char (String "215"%char "x").
Proof. reflexivity. Qed.

Example cleanMath_ex : Regex.cleanMath "explain (3 - 4)/2." = "(3-4)/2.".
Proof. reflexivity. Qed.

Example parseFloat_tenth :
  Num.parseFloat "0.1" = S754_finite false 7205759403792794 (-56).
Proof. reflexivity. Qed.

Example parseFloat_ties_even :
  Num.parseFloat "9007199254740993" = Num.parseFloat "9007199254740992".
Proof. reflexivity. Qed.

Example mul_inexact :
  Num.mul (Num.parseFloat "0.1") (Num.parseFloat "3")
  = Num.parseFloat "0.30000000000000004".
Proof. reflexivity. Qed.

Example grouped_million : Demo.grouped 1234567 = "1,234,567".
Proof. reflexivity. Qed.

(** ** Strings *)

Lemma prefix_append (s t : string) : prefix s (s ++ t) = true.
Proof.
  induction s as [|c s IH]; simpl.
  - now destruct t.
  - destruct (ascii_dec c c) as [_|n]; [exact IH | now destruct n].
Qed.

Lemma includes_append_r (a s needle : string) :
  Js.includes s needle = true -> Js.includes (a ++ s) needle = true.
Proof.
  intros H. induction a as [|c a IH]; simpl; [exact H|].
  rewrite IH. apply orb_true_r.
Qed.

Lemma includes_infix (a s b : string) : Js.includes (a ++ s ++ b) s = true.
Proof.
  apply includes_append_r.
  pose proof (prefix_append s b) as H.
  destruct (s ++ b); cbn [Js.includes]; now rewrite H.
Qed.

Lemma append_assoc (a b c : string) : (a ++ b) ++ c = a ++ b ++ c.
Proof. induction a as [|x a IH]; simpl; [reflexivity | now rewrite IH]. Qed.

Lemma forallb_filter (p : ascii -> bool) (s : string) :
  Js.forallb p (Js.filter p s) = true.
Proof.
  induction s as [|c s IH]; simpl; [reflexivity|].
  destruct (p c) eqn:E; simpl; [now rewrite E | exact IH].
Qed.

(** The test after the stripping only asks for a text that is not empty. *)
Lemma isMathText_cleanMath (content : string) :
  Regex.isMathText (Regex.cleanMath content)
  = negb (Js.isEmpty (Regex.cleanMath content)).
Proof.
  unfold Regex.isMathText, Regex.cleanMath.
  now rewrite forallb_filter, andb_true_r.
Qed.

(** ** The reply cascade *)

Section ReplyFacts.
Context {rt : Runtime}.

(** The cascade of the handler is the ordered rule list. *)
Lemma generateReply_firstMatch (content : string) :
  Reply.generateReply content = Reply.firstMatch Reply.orderedRules content.
Proof.
  unfold Reply.generateReply. simpl.
  destruct (Reply.mathRule _); [reflexivity|].
  destruct (Reply.greetingRule _); [reflexivity|].
  destruct (Reply.statusRule _); [reflexivity|].
  destruct (Reply.capabilityRule _); [reflexivity|].
  destruct (Reply.gratitudeRule _); [reflexivity|].
  destruct (Reply.timeRule _); reflexivity.
Qed.

(** The attempt of the math rule leaves the world alone. *)
Lemma mathAttempt_world (content : string) (w : World) :
  snd (Reply.mathAttempt content w) = w.
Proof.
  unfold Reply.mathAttempt.
  destruct (Regex.mathMatch content) as [[g1 g2]|]; [reflexivity|].
  destruct (negb _ && _); [|reflexivity].
  destruct (evalMath _); reflexivity.
Qed.

(** The cascade never throws and leaves the world alone. *)
Lemma generateReply_returns (content : string) (w : World) :
  exists reply, Reply.generateReply content w = (Ok reply, w).
Proof.
  unfold Reply.generateReply.
  destruct (Reply.mathRule _).
  { unfold tryCatch. pose proof (mathAttempt_world content w) as Hw.
    destruct (Reply.mathAttempt content w) as [[r|e] w']; simpl in Hw; subst w'.
    - now exists r.
    - now eexists. }
  destruct (Reply.greetingRule _); [now eexists|].
  destruct (Reply.statusRule _); [now eexists|].
  destruct (Reply.capabilityRule _); [now eexists|].
  destruct (Reply.gratitudeRule _); [now eexists|].
  destruct (Reply.timeRule _); now eexists.
Qed.

(** When the evaluation of the stripped text throws, the math rule answers
    with the clarification. *)
Lemma math_clarification (content : string) (w : World) :
  Reply.mathRule (Js.toLowerCase content) = true ->
  Regex.mathMatch content = None ->
  Regex.cleanMath content <> EmptyString ->
  evalMath (Regex.cleanMath content) = None ->
  Reply.generateReply content w = (Ok (Some Reply.clarification), w).
Proof.
  intros Hrule Hmatch Hclean Heval.
  unfold Reply.generateReply, tryCatch, Reply.mathAttempt.
  rewrite Hrule, Hmatch, Heval, isMathText_cleanMath.
  destruct (Regex.cleanMath content); [contradiction | reflexivity].
Qed.

(** When the stripped text evaluates, the math rule reports its value. *)
Lemma math_evaluated (content result : string) (w : World) :
  Reply.mathRule (Js.toLowerCase content) = true ->
  Regex.mathMatch content = None ->
  Regex.cleanMath content <> EmptyString ->
  evalMath (Regex.cleanMath content) = Some result ->
  Reply.generateReply content w = (Ok (Some (Reply.evaluated result)), w).
Proof.
  intros Hrule Hmatch Hclean Heval.
  unfold Reply.generateReply, tryCatch, Reply.mathAttempt.
  rewrite Hrule, Hmatch, Heval, isMathText_cleanMath.
  destruct (Regex.cleanMath content); [contradiction | reflexivity].
Qed.

Lemma mathAttempt_outcome (content : string) (w1 w2 : World) :
  fst (Reply.mathAttempt content w1) = fst (Reply.mathAttempt content w2).
Proof.
  unfold Reply.mathAttempt.
  destruct (Regex.mathMatch content) as [[g1 g2]|]; [reflexivity|].
  destruct (negb _ && _); [|reflexivity].
  destruct (evalMath _); reflexivity.
Qed.

(** The reply depends on the world through the clock only. *)
Lemma generateReply_same_clock (content : string) (w1 w2 : World) :
  now w1 = now w2 ->
  fst (Reply.generateReply content w1) = fst (Reply.generateReply content w2).
Proof.
  intros H. unfold Reply.generateReply.
  destruct (Reply.mathRule _).
  { unfold tryCatch. pose proof (mathAttempt_outcome content w1 w2) as E.
    destruct (Reply.mathAttempt content w1) as [[r1|e1] v1],
             (Reply.mathAttempt content w2) as [[r2|e2] v2];
      simpl in E; try discriminate; try reflexivity.
    now inversion E. }
  destruct (Reply.greetingRule _); [reflexivity|].
  destruct (Reply.statusRule _); [reflexivity|].
  destruct (Reply.capabilityRule _); [reflexivity|].
  destruct (Reply.gratitudeRule _); [reflexivity|].
  destruct (Reply.timeRule _); [|reflexivity].
  unfold bind, newDate, ret. simpl. now rewrite H.
Qed.

Lemma generateReply_moved (content : string) (reply : option string)
  (w1 w2 : World) :
  now w1 = now w2 ->
  fst (Reply.generateReply content w1) = Ok reply ->
  Reply.generateReply content w2 = (Ok reply, w2).
Proof.
  intros Hnow H1.
  destruct (generateReply_returns content w2) as [r Hr].
  rewrite (generateReply_same_clock content w1 w2 Hnow), Hr in H1.
  simpl in H1. inversion H1; subst. exact Hr.
Qed.

End ReplyFacts.

Section ReplyClaims.
Context {rt : Runtime}.

(** C1. The reply generator is an ordered first-match rule cascade: it is
    the first-match evaluation of the ordered rule list; for
    "what is 12 x 4?" the reply is the product text, which contains 48; for
    "hello" it is the greeting; for "thank you" it is the gratitude
    acknowledgment; and for a text that matches no rule it is the fallback,
    which contains the text itself. *)
Theorem C1_reply_cascade (w : World) :
  (forall content,
      Reply.generateReply content = Reply.firstMatch Reply.orderedRules content)
  /\ (Reply.generateReply "what is 12 x 4?" w
      = (Ok (Some (Reply.product "12" "4")), w)
      /\ Js.includes (Reply.product "12" "4") "48" = true)
  /\ Reply.generateReply "hello" w = (Ok (Some Reply.greeting), w)
  /\ Reply.generateReply "thank you" w = (Ok (Some Reply.gratitude), w)
  /\ (forall content,
         Reply.matchesNoRule content = true ->
         Reply.generateReply content w = (Ok (Some (Reply.fallback content)), w)
         /\ Js.includes (Reply.fallback content) content = true).
Proof.
  split; [exact generateReply_firstMatch|].
  split; [split; vm_compute; reflexivity|].
  split; [reflexivity|].
  split; [reflexivity|].
  intros content H. split.
  - unfold Reply.matchesNoRule in H. simpl in H.
    repeat (apply andb_true_iff in H; destruct H as [?H H]).
    repeat match goal with
           | Hn : negb _ = true |- _ => apply negb_true_iff in Hn
           end.
    unfold Reply.generateReply.
    repeat match goal with
           | Hn : _ = false |- _ => rewrite Hn; clear Hn
           end.
    reflexivity.
  - unfold Reply.fallback.
    rewrite <- append_assoc. apply includes_infix.
Qed.

(** C2, on the code.  When the math rule is entered, no product is found
    and the stripped text is empty, no branch assigns the reply: the
    cascade ends with [aiResponse] undefined. *)
Theorem C2_reply_left_undefined (content : string) (w : World) :
  Reply.mathRule (Js.toLowerCase content) = true ->
  Regex.mathMatch content = None ->
  Regex.cleanMath content = EmptyString ->
  Reply.generateReply content w = (Ok None, w).
Proof.
  intros Hrule Hmatch Hclean.
  unfold Reply.generateReply, tryCatch, Reply.mathAttempt.
  now rewrite Hrule, Hmatch, Hclean.
Qed.

(** C9, as amended.  The reply is a function of the message text and of
    the clock reading, and of the text alone unless the time/date rule is
    the first to match: two evaluations on the same text agree whenever
    that rule does not answer or the clocks agree, whatever else the two
    worlds hold. *)
Theorem C9_reply_of_text_and_clock (content : string) (w1 w2 : World) :
  Reply.timeRuleAnswers content = false \/ now w1 = now w2 ->
  fst (Reply.generateReply content w1) = fst (Reply.generateReply content w2).
Proof.
  intros H. unfold Reply.timeRuleAnswers in H.
  unfold Reply.generateReply.
  destruct (Reply.mathRule _).
  { unfold tryCatch. pose proof (mathAttempt_outcome content w1 w2) as E.
    destruct (Reply.mathAttempt content w1) as [[r1|e1] v1],
             (Reply.mathAttempt content w2) as [[r2|e2] v2];
      simpl in E; try discriminate; try reflexivity.
    now inversion E. }
  destruct (Reply.greetingRule _); [reflexivity|].
  destruct (Reply.statusRule _); [reflexivity|].
  destruct (Reply.capabilityRule _); [reflexivity|].
  destruct (Reply.gratitudeRule _); [reflexivity|].
  destruct (Reply.timeRule _); [|reflexivity].
  destruct H as [H|H]; [discriminate|].
  unfold bind, newDate, ret. simpl. now rewrite H.
Qed.

End ReplyClaims.

Lemma C1_reply_cascade_witness :
  Reply.matchesNoRule (rt := Demo.runtime) "good morning" = true
  /\ Reply.generateReply (rt := Demo.runtime) "good morning" Demo.emptyWorld
     = (Ok (Some (Reply.fallback "good morning")), Demo.emptyWorld).
Proof.
  split; [reflexivity|].
  apply (proj2 (proj2 (proj2 (proj2
           (C1_reply_cascade (rt := Demo.runtime) Demo.emptyWorld))))).
  reflexivity.
Defined.

Lemma C2_reply_left_undefined_witness :
  Reply.generateReply (rt := Demo.runtime) "explain" Demo.emptyWorld
  = (Ok None, Demo.emptyWorld).
Proof.
  apply (C2_reply_left_undefined (rt := Demo.runtime) "explain" Demo.emptyWorld);
    reflexivity.
Defined.

(** C9, as stated, fails: the same text answered at two instants. *)
Lemma C9_counterexample :
  fst (Reply.generateReply (rt := Demo.runtime) "what time is it"
         (atTime 0 Demo.emptyWorld))
  <> fst (Reply.generateReply (rt := Demo.runtime) "what time is it"
            (atTime 1000 Demo.emptyWorld)).
Proof. vm_compute. discriminate. Qed.

Lemma C9_reply_of_text_and_clock_witness :
  fst (Reply.generateReply (rt := Demo.runtime) "thank you"
         (atTime 0 Demo.emptyWorld))
  = fst (Reply.generateReply (rt := Demo.runtime) "thank you"
           (atTime 1000 Demo.emptyWorld)).
Proof.
  apply (C9_reply_of_text_and_clock (rt := Demo.runtime) "thank you").
  left. reflexivity.
Defined.

(** ** The store *)

Section StorageFacts.
Context {rt : Runtime}.

Lemma statement_available (w : World) :
  available w -> statement w = (Ok tt, w).
Proof. unfold available, statement. now intros ->. Qed.

Lemma conversationIs_applyUpdate id updates date c :
  Storage.conversationIs id (Storage.applyUpdate updates date c)
  = Storage.conversationIs id c.
Proof. reflexivity. Qed.

(** The first row with the id, after an update of the rows with the id. *)
Lemma find_updateWhere id updates date rows :
  find (Storage.conversationIs id) (Storage.updateWhere id updates date rows)
  = option_map (Storage.applyUpdate updates date)
      (find (Storage.conversationIs id) rows).
Proof.
  unfold Storage.updateWhere.
  induction rows as [|c rows IH]; simpl; [reflexivity|].
  destruct (Storage.conversationIs id c) eqn:E.
  - now rewrite conversationIs_applyUpdate, E.
  - now rewrite E.
Qed.

Lemma length_insertByCreatedAt m l :
  List.length (Storage.insertByCreatedAt m l) = S (List.length l).
Proof.
  induction l as [|x l IH]; simpl; [reflexivity|].
  destruct (_ <=? _)%Z; simpl; [reflexivity | now rewrite IH].
Qed.

Lemma length_orderByCreatedAt l :
  List.length (Storage.orderByCreatedAt l) = List.length l.
Proof.
  unfold Storage.orderByCreatedAt.
  induction l as [|x l IH]; simpl; [reflexivity|].
  now rewrite length_insertByCreatedAt, IH.
Qed.

(** *** With the store available: what each operation returns *)

Lemma getUserByUsername_available username w :
  available w ->
  Storage.getUserByUsername username w
  = (Ok (find (Storage.userNamed username) (users w)), w).
Proof.
  intros H. unfold Storage.getUserByUsername, bind.
  now rewrite (statement_available w H).
Qed.

Lemma getConversation_available id w :
  available w ->
  Storage.getConversation id w
  = (Ok (find (Storage.conversationIs id) (conversations w)), w).
Proof.
  intros H. unfold Storage.getConversation, bind.
  now rewrite (statement_available w H).
Qed.

Lemma getMessages_available id w :
  available w ->
  Storage.getMessages id w
  = (Ok (Storage.orderByCreatedAt
           (List.filter (Storage.messageOf id) (messages w))), w).
Proof.
  intros H. unfold Storage.getMessages, bind.
  now rewrite (statement_available w H).
Qed.

Lemma updateConversation_available id updates w :
  available w ->
  Storage.updateConversation id updates w
  = (Ok (find (Storage.conversationIs id)
           (Storage.updateWhere id updates (now w) (conversations w))),
     setConversations
       (Storage.updateWhere id updates (now w) (conversations w)) w).
Proof.
  intros H. unfold Storage.updateConversation, bind, newDate.
  now rewrite (statement_available w H).
Qed.

Lemma insertMessage_available conversationId text role w :
  available w ->
  Storage.insertMessage
    {| im_conversationId := conversationId; im_content := Some text;
       im_role := role |} w
  = (Ok (insertedMessage conversationId text role w),
     afterInsert (insertedMessage conversationId text role w) w).
Proof.
  intros H. unfold Storage.insertMessage, bind.
  now rewrite (statement_available w H).
Qed.

Lemma createMessage_available conversationId text role w :
  available w ->
  Storage.createMessage
    {| im_conversationId := conversationId; im_content := Some text;
       im_role := role |} w
  = (Ok (insertedMessage conversationId text role w),
     afterCreate (insertedMessage conversationId text role w) w).
Proof.
  intros H. unfold Storage.createMessage, bind.
  rewrite (insertMessage_available _ _ _ w H). simpl.
  now rewrite updateConversation_available.
Qed.

(** A row without content is refused, and nothing is stored. *)
Lemma createMessage_undefined conversationId role w :
  available w ->
  Storage.createMessage
    {| im_conversationId := conversationId; im_content := None;
       im_role := role |} w
  = (Throw "null value in column content", w).
Proof.
  intros H. unfold Storage.createMessage, Storage.insertMessage, bind.
  now rewrite (statement_available w H).
Qed.

End StorageFacts.

(** ** The handlers *)

Section HandlerClaims.
Context {rt : Runtime}.

(** An authenticated request reaches its handler with the user of its
    token. *)
Lemma requireAuth_caller req userId (next : string -> M Response) :
  Auth.caller req = Some userId ->
  Auth.requireAuth req next = next userId.
Proof.
  unfold Auth.caller, Auth.requireAuth.
  destruct (Auth.bearerToken _) as [token|]; [|discriminate].
  destruct (Js.isEmpty token); [discriminate|].
  now intros ->.
Qed.

(** Without a verified token no handler runs. *)
Lemma requireAuth_rejects req (next : string -> M Response) w :
  Auth.caller req = None ->
  exists message,
    Auth.requireAuth req next w
    = (Ok {| status := 401; payload := PMessage message |}, w).
Proof.
  unfold Auth.caller, Auth.requireAuth.
  destruct (Auth.bearerToken _) as [token|]; [|now eexists].
  destruct (Js.isEmpty token); [now eexists|].
  intros ->. now eexists.
Qed.

Lemma eqb_neq_true (a b : string) : a <> b -> negb (String.eqb a b) = true.
Proof. intros H. apply negb_true_iff. now apply String.eqb_neq. Qed.

(** C3. For an authenticated [GET /api/conversations/:id], existence is
    checked before ownership: when no conversation has the id the response
    is 404; when one has it and its owner is not the caller the response is
    403. *)
Theorem C3_existence_before_ownership (req : Request) (userId : string)
  (w : World) :
  Auth.caller req = Some userId ->
  available w ->
  (find (Storage.conversationIs (param_id req)) (conversations w) = None ->
   Routes.getConversation req w
   = (Ok {| status := 404; payload := PMessage "Conversation not found" |}, w))
  /\ (forall conversation,
         find (Storage.conversationIs (param_id req)) (conversations w)
         = Some conversation ->
         Conversation.userId conversation <> userId ->
         Routes.getConversation req w
         = (Ok {| status := 403; payload := PMessage "Access denied" |}, w)).
Proof.
  intros Hauth Hw. unfold Routes.getConversation.
  rewrite (requireAuth_caller _ _ _ Hauth).
  unfold tryCatch, bind. rewrite (getConversation_available _ w Hw).
  split.
  - now intros ->.
  - intros c -> Hc. now rewrite (eqb_neq_true _ _ Hc).
Qed.

(** The same order of checks guards the deletion. *)
Lemma deleteConversation_checks (req : Request) (userId : string) (w : World) :
  Auth.caller req = Some userId ->
  available w ->
  (find (Storage.conversationIs (param_id req)) (conversations w) = None ->
   Routes.deleteConversation req w
   = (Ok {| status := 404; payload := PMessage "Conversation not found" |}, w))
  /\ (forall conversation,
         find (Storage.conversationIs (param_id req)) (conversations w)
         = Some conversation ->
         Conversation.userId conversation <> userId ->
         Routes.deleteConversation req w
         = (Ok {| status := 403; payload := PMessage "Access denied" |}, w)).
Proof.
  intros Hauth Hw. unfold Routes.deleteConversation.
  rewrite (requireAuth_caller _ _ _ Hauth).
  unfold tryCatch, bind. rewrite (getConversation_available _ w Hw).
  split.
  - now intros ->.
  - intros c -> Hc. now rewrite (eqb_neq_true _ _ Hc).
Qed.

(** C8. A registration whose username is taken fails with the
    duplicate-username error, status 400, whatever the password, and the
    store is left as it was; should the lookup itself fail the response is
    still a 400 and still no user is created. *)
Theorem C8_duplicate_username (req : Request) (userData : InsertUser)
  (existing : User.t) (w : World) :
  insertUserSchema (body req) = Some userData ->
  find (Storage.userNamed (iu_username userData)) (users w) = Some existing ->
  (available w ->
   Routes.register req w
   = (Ok {| status := 400; payload := PMessage "Username already exists" |}, w))
  /\ (exists message w',
         Routes.register req w
         = (Ok {| status := 400; payload := PMessage message |}, w')
         /\ users w' = users w).
Proof.
  intros Hparse Hfind. unfold Routes.register. rewrite Hparse.
  split.
  - intros Hw. unfold tryCatch, bind.
    now rewrite (getUserByUsername_available _ w Hw), Hfind.
  - unfold tryCatch, bind, Storage.getUserByUsername, bind, statement, get, ret.
    destruct (faults w) as [|[] f]; simpl; rewrite ?Hfind; simpl;
      do 2 eexists; split; reflexivity.
Qed.

(** C10. A conversation created by an authenticated
    [POST /api/conversations] belongs to the caller, the user of the
    verified token, whatever the request body carries: every response 200
    shows a conversation of the caller, appended to the store; and with the
    store available every body the schema accepts is answered so, also one
    that names another owner. *)
Theorem C10_owner_is_caller (req : Request) (userId : string) (w : World) :
  Auth.caller req = Some userId ->
  (forall response w',
      Routes.postConversation req w = (Ok response, w') ->
      status response = 200 ->
      exists conversation,
        payload response = PConversation conversation
        /\ Conversation.userId conversation = userId
        /\ conversations w' = (conversations w ++ [conversation])%list)
  /\ (forall data,
         available w ->
         insertConversationSchema (body req) = Some data ->
         exists conversation w',
           Routes.postConversation req w
           = (Ok {| status := 200; payload := PConversation conversation |}, w')
           /\ Conversation.userId conversation = userId).
Proof.
  intros Hauth. unfold Routes.postConversation.
  rewrite (requireAuth_caller _ _ _ Hauth). split.
  - intros response w' Hrun Hstatus.
    unfold tryCatch, bind in Hrun.
    destruct (insertConversationSchema (body req)) as [data|].
    + unfold Storage.createConversation, Storage.requireOwner, bind,
        statement in Hrun.
      destruct (faults w) as [|[] f]; simpl in Hrun;
        inversion Hrun; subst; simpl in *; try discriminate;
        eexists; repeat split; reflexivity.
    + simpl in Hrun. inversion Hrun; subst. discriminate.
  - intros data Hw ->.
    unfold tryCatch, bind, Storage.createConversation, bind.
    rewrite (statement_available w Hw). simpl.
    do 2 eexists. split; reflexivity.
Qed.

End HandlerClaims.

(** ** Claims on the store *)

Section StorageClaims.
Context {rt : Runtime}.

Lemma filter_filter_negb {A} (p : A -> bool) (l : list A) :
  List.filter p (List.filter (fun x => negb (p x)) l) = [].
Proof.
  induction l as [|x l IH]; simpl; [reflexivity|].
  destruct (p x) eqn:E; simpl; [exact IH | now rewrite E].
Qed.

Lemma find_filter_negb {A} (p : A -> bool) (l : list A) :
  find p (List.filter (fun x => negb (p x)) l) = None.
Proof.
  induction l as [|x l IH]; simpl; [reflexivity|].
  destruct (p x) eqn:E; simpl; [exact IH | now rewrite E].
Qed.

Lemma filter_length_existsb {A} (p : A -> bool) (l : list A) :
  (0 <? List.length (List.filter p l))%nat = existsb p l.
Proof.
  induction l as [|x l IH]; simpl; [reflexivity|].
  destruct (p x); simpl; [reflexivity | exact IH].
Qed.

(** C6. [createMessage] bumps the updated timestamp of the parent
    conversation: after a creation that returns, the parent carries the
    clock reading of the call, which is not before the value it had (no
    stored timestamp is ahead of the clock); and with the store available a
    creation with a content does return. *)
Theorem C6_createMessage_bumps_parent (messageData : InsertMessage)
  (parent : Conversation.t) (w : World) :
  find (Storage.conversationIs (im_conversationId messageData)) (conversations w)
  = Some parent ->
  (Conversation.updatedAt parent <= now w)%Z ->
  (forall message w',
      Storage.createMessage messageData w = (Ok message, w') ->
      exists parent',
        find (Storage.conversationIs (im_conversationId messageData))
          (conversations w') = Some parent'
        /\ Conversation.updatedAt parent' = now w
        /\ (Conversation.updatedAt parent <= Conversation.updatedAt parent')%Z)
  /\ (available w ->
      im_content messageData <> None ->
      exists message w', Storage.createMessage messageData w = (Ok message, w')).
Proof.
  intros Hfind Hpast. split.
  - intros message w' Hrun.
    exists (Storage.applyUpdate Storage.noUpdates (now w) parent).
    unfold Storage.createMessage, Storage.insertMessage,
      Storage.requireContent, Storage.updateConversation, bind, statement,
      newDate in Hrun.
    destruct (im_content messageData) as [text|];
      destruct (faults w) as [|[] [|[] f]] eqn:Hf; simpl in Hrun;
      rewrite ?Hf in Hrun; simpl in Hrun;
      inversion Hrun; subst; simpl;
      rewrite find_updateWhere, Hfind; repeat split; assumption.
  - intros Hw Hcontent.
    destruct messageData as [cid [text|] role]; [|now destruct Hcontent].
    do 2 eexists. now apply createMessage_available.
Qed.

(** C7. [deleteConversation] deletes the messages of the conversation, then
    the conversation row, and returns whether a row was removed; afterwards
    the messages listed for the id are none.  The messages go first: when
    the second statement fails they are gone and the row is still there.
    With the store available the deletion returns. *)
Theorem C7_deleteConversation_cascades (id : string) (w : World) :
  (forall removed w',
      Storage.deleteConversation id w = (Ok removed, w') ->
      removed = existsb (Storage.conversationIs id) (conversations w)
      /\ find (Storage.conversationIs id) (conversations w') = None
      /\ List.filter (Storage.messageOf id) (messages w') = []
      /\ (forall listed w'',
             Storage.getMessages id w' = (Ok listed, w'') -> listed = []))
  /\ (forall rest,
         faults w = false :: true :: rest ->
         exists e w',
           Storage.deleteConversation id w = (Throw e, w')
           /\ List.filter (Storage.messageOf id) (messages w') = []
           /\ conversations w' = conversations w)
  /\ (available w ->
      exists removed w', Storage.deleteConversation id w = (Ok removed, w')).
Proof.
  split; [|split].
  - intros removed w' Hrun.
    unfold Storage.deleteConversation, bind, statement in Hrun.
    assert (Hgone : forall v : World,
               messages v
               = List.filter (fun m => negb (Storage.messageOf id m)) (messages w) ->
               forall listed v',
                 Storage.getMessages id v = (Ok listed, v') -> listed = []).
    { intros v Hv listed v'. unfold Storage.getMessages, bind, statement.
      destruct (faults v) as [|[] f]; simpl; intros Hl; inversion Hl; subst;
        simpl; now rewrite Hv, filter_filter_negb. }
    destruct (faults w) as [|[] [|[] f]] eqn:Hf; simpl in Hrun;
      rewrite ?Hf in Hrun; simpl in Hrun;
      inversion Hrun; subst; simpl;
      (split; [apply filter_length_existsb|]);
      (split; [apply find_filter_negb|]);
      (split; [apply filter_filter_negb|]);
      apply Hgone; reflexivity.
  - intros rest Hf.
    unfold Storage.deleteConversation, bind, statement.
    rewrite Hf. simpl. do 2 eexists. split; [reflexivity|].
    simpl. split; [apply filter_filter_negb | reflexivity].
  - intros Hw. unfold Storage.deleteConversation, bind.
    rewrite (statement_available w Hw). simpl.
    unfold statement. simpl. rewrite Hw. now do 2 eexists.
Qed.

End StorageClaims.

(** ** Messages are never lost while a message is handled *)

Section Preserves.
Variable R : World -> World -> Prop.
Hypothesis R_refl : forall w, R w w.
Hypothesis R_trans : forall a b c, R a b -> R b c -> R a c.

Lemma preserves_ret {A} (a : A) : preserves R (ret a).
Proof. intros w. apply R_refl. Qed.

Lemma preserves_throw {A} e : preserves R (@throw A e).
Proof. intros w. apply R_refl. Qed.

Lemma preserves_newDate : preserves R newDate.
Proof. intros w. apply R_refl. Qed.

Lemma preserves_bind {A B} (c : M A) (k : A -> M B) :
  preserves R c -> (forall a, preserves R (k a)) -> preserves R (bind c k).
Proof.
  intros Hc Hk w. unfold bind. specialize (Hc w).
  destruct (c w) as [[a|e] w1]; simpl in *; [|exact Hc].
  eapply R_trans; [exact Hc | apply Hk].
Qed.

Lemma preserves_tryCatch {A} (c : M A) (h : string -> M A) :
  preserves R c -> (forall e, preserves R (h e)) -> preserves R (tryCatch c h).
Proof.
  intros Hc Hh w. unfold tryCatch. specialize (Hc w).
  destruct (c w) as [[a|e] w1]; simpl in *; [exact Hc|].
  eapply R_trans; [exact Hc | apply Hh].
Qed.

End Preserves.

Lemma messagesKept_refl w : messagesKept w w.
Proof. apply incl_refl. Qed.

Lemma messagesKept_trans a b c :
  messagesKept a b -> messagesKept b c -> messagesKept a c.
Proof. apply incl_tran. Qed.

Lemma stampsKept_refl w : stampsKept w w.
Proof. now intros H. Qed.

Lemma stampsKept_trans a b c : stampsKept a b -> stampsKept b c -> stampsKept a c.
Proof. unfold stampsKept. auto. Qed.

Section Keeps.
Context {rt : Runtime}.

Lemma keeps_ret {A} (a : A) : keepsMessages (ret a).
Proof. apply preserves_ret, messagesKept_refl. Qed.

Lemma keeps_throw {A} e : keepsMessages (@throw A e).
Proof. apply preserves_throw, messagesKept_refl. Qed.

Lemma keeps_newDate : keepsMessages newDate.
Proof. apply preserves_newDate, messagesKept_refl. Qed.

Lemma keeps_statement : keepsMessages statement.
Proof.
  intros w. unfold messagesKept, statement.
  destruct (faults w) as [|[] f]; apply incl_refl.
Qed.

Lemma keeps_bind {A B} (c : M A) (k : A -> M B) :
  keepsMessages c -> (forall a, keepsMessages (k a)) -> keepsMessages (bind c k).
Proof. apply preserves_bind, messagesKept_trans. Qed.

Lemma keeps_tryCatch {A} (c : M A) (h : string -> M A) :
  keepsMessages c -> (forall e, keepsMessages (h e)) ->
  keepsMessages (tryCatch c h).
Proof. apply preserves_tryCatch, messagesKept_trans. Qed.

Lemma keeps_insertMessage messageData :
  keepsMessages (Storage.insertMessage messageData).
Proof.
  intros w.
  unfold messagesKept, Storage.insertMessage, Storage.requireContent, bind,
    statement.
  destruct (im_content messageData), (faults w) as [|[] f]; simpl;
    auto using incl_refl, incl_appl.
Qed.

Lemma keeps_updateConversation id updates :
  keepsMessages (Storage.updateConversation id updates).
Proof.
  intros w.
  unfold messagesKept, Storage.updateConversation, bind, statement, newDate.
  destruct (faults w) as [|[] f]; apply incl_refl.
Qed.

Lemma keeps_getMessages id : keepsMessages (Storage.getMessages id).
Proof.
  intros w. unfold messagesKept, Storage.getMessages, bind, statement.
  destruct (faults w) as [|[] f]; apply incl_refl.
Qed.

Lemma keeps_generateReply content : keepsMessages (Reply.generateReply content).
Proof.
  intros w. unfold messagesKept.
  destruct (generateReply_returns content w) as [r ->].
  apply incl_refl.
Qed.

#[local] Hint Resolve keeps_ret keeps_throw keeps_newDate keeps_statement
  keeps_insertMessage keeps_updateConversation keeps_getMessages
  keeps_generateReply : keeps.

Ltac keeps_steps :=
  repeat match goal with
         | |- keepsMessages (bind _ _) => apply keeps_bind; [|intros ?]
         | |- keepsMessages (tryCatch _ _) => apply keeps_tryCatch; [|intros ?]
         end;
  auto with keeps.

Lemma keeps_createMessage messageData :
  keepsMessages (Storage.createMessage messageData).
Proof. unfold Storage.createMessage. keeps_steps. Qed.

#[local] Hint Resolve keeps_createMessage : keeps.

Lemma keeps_replyAndRecord conversationId content userMessage listed :
  keepsMessages (Routes.replyAndRecord conversationId content userMessage listed).
Proof.
  unfold Routes.replyAndRecord, respond. keeps_steps.
  destruct (_ =? _)%nat; keeps_steps.
Qed.

(** What a creation that returns has stored. *)
Lemma createMessage_returns messageData w message w' :
  Storage.createMessage messageData w = (Ok message, w') ->
  In message (messages w')
  /\ Message.conversationId message = im_conversationId messageData
  /\ Message.role message = im_role messageData
  /\ im_content messageData = Some (Message.content message).
Proof.
  intros Hrun.
  unfold Storage.createMessage, Storage.insertMessage,
    Storage.requireContent, Storage.updateConversation, bind, statement,
    newDate in Hrun.
  destruct (im_content messageData) as [text|];
    destruct (faults w) as [|[] [|[] f]] eqn:Hf; simpl in Hrun;
    rewrite ?Hf in Hrun; simpl in Hrun;
    inversion Hrun; subst; simpl;
    (split; [apply in_or_app; right; now left | now repeat split]).
Qed.

End Keeps.

(** ** Updated timestamps never run ahead of the clock

    The invariant behind the timestamp bump of [createMessage]: every
    operation of the store and every route keeps it, and so does the
    passing of time. *)

Section Stamps.
Context {rt : Runtime}.

Lemma stamps_updateWhere id updates w :
  stampsInPast w ->
  Forall (fun c => (Conversation.updatedAt c <= now w)%Z)
    (Storage.updateWhere id updates (now w) (conversations w)).
Proof.
  unfold stampsInPast, Storage.updateWhere. intros H.
  induction H as [|c l Hc Hl IH]; simpl; constructor; [|exact IH].
  destruct (Storage.conversationIs id c); simpl; [lia | exact Hc].
Qed.

Lemma stamps_filter (p : Conversation.t -> bool) w :
  stampsInPast w ->
  Forall (fun c => (Conversation.updatedAt c <= now w)%Z)
    (List.filter p (conversations w)).
Proof.
  unfold stampsInPast. intros H.
  induction H as [|c l Hc Hl IH]; simpl; [constructor|].
  destruct (p c); [constructor; assumption | exact IH].
Qed.

Lemma stamps_ret {A} (a : A) : keepsStamps (ret a).
Proof. apply preserves_ret, stampsKept_refl. Qed.

Lemma stamps_throw {A} e : keepsStamps (@throw A e).
Proof. apply preserves_throw, stampsKept_refl. Qed.

Lemma stamps_respond code p : keepsStamps (respond code p).
Proof. apply stamps_ret. Qed.

Lemma stamps_newDate : keepsStamps newDate.
Proof. apply preserves_newDate, stampsKept_refl. Qed.

Lemma stamps_bind {A B} (c : M A) (k : A -> M B) :
  keepsStamps c -> (forall a, keepsStamps (k a)) -> keepsStamps (bind c k).
Proof. apply preserves_bind, stampsKept_trans. Qed.

Lemma stamps_tryCatch {A} (c : M A) (h : string -> M A) :
  keepsStamps c -> (forall e, keepsStamps (h e)) -> keepsStamps (tryCatch c h).
Proof. apply preserves_tryCatch, stampsKept_trans. Qed.

Lemma stamps_getUserByUsername name : keepsStamps (Storage.getUserByUsername name).
Proof.
  intros w H. unfold Storage.getUserByUsername, bind, statement.
  destruct (faults w) as [|[] f]; exact H.
Qed.

Lemma stamps_createUser userData : keepsStamps (Storage.createUser userData).
Proof.
  intros w H. unfold Storage.createUser, bind, statement.
  destruct (faults w) as [|[] f]; exact H.
Qed.

Lemma stamps_getConversation id : keepsStamps (Storage.getConversation id).
Proof.
  intros w H. unfold Storage.getConversation, bind, statement.
  destruct (faults w) as [|[] f]; exact H.
Qed.

Lemma stamps_createConversation data :
  keepsStamps (Storage.createConversation data).
Proof.
  intros w H.
  unfold Storage.createConversation, Storage.requireOwner, bind, statement.
  destruct (ic_userId data), (faults w) as [|[] f]; simpl; try exact H;
    unfold stampsInPast; simpl; apply Forall_app; (split; [exact H|]);
    (constructor; [simpl; lia | constructor]).
Qed.

Lemma stamps_updateConversation id updates :
  keepsStamps (Storage.updateConversation id updates).
Proof.
  intros w H. unfold Storage.updateConversation, bind, statement, newDate.
  destruct (faults w) as [|[] f]; simpl; try exact H;
    apply (stamps_updateWhere id updates w H).
Qed.

Lemma stamps_deleteConversation id : keepsStamps (Storage.deleteConversation id).
Proof.
  intros w H. unfold Storage.deleteConversation, bind, statement.
  destruct (faults w) as [|[] [|[] f]] eqn:Hf; simpl; rewrite ?Hf; simpl;
    try exact H; apply (stamps_filter _ w H).
Qed.

Lemma stamps_getMessages id : keepsStamps (Storage.getMessages id).
Proof.
  intros w H. unfold Storage.getMessages, bind, statement.
  destruct (faults w) as [|[] f]; exact H.
Qed.

Lemma stamps_insertMessage messageData :
  keepsStamps (Storage.insertMessage messageData).
Proof.
  intros w H.
  unfold Storage.insertMessage, Storage.requireContent, bind, statement.
  destruct (im_content messageData), (faults w) as [|[] f]; exact H.
Qed.

Lemma stamps_generateReply content : keepsStamps (Reply.generateReply content).
Proof.
  intros w H. now destruct (generateReply_returns content w) as [r ->].
Qed.

#[local] Hint Resolve stamps_ret stamps_throw stamps_respond stamps_newDate
  stamps_getUserByUsername stamps_createUser stamps_getConversation
  stamps_createConversation stamps_updateConversation
  stamps_deleteConversation stamps_getMessages stamps_insertMessage
  stamps_generateReply : keeps.

Ltac stamps_steps :=
  repeat match goal with
         | |- keepsStamps (bind _ _) => apply stamps_bind; [|intros ?]
         | |- keepsStamps (tryCatch _ _) => apply stamps_tryCatch; [|intros ?]
         | |- keepsStamps (match ?x with _ => _ end) => destruct x
         | |- keepsStamps (Auth.requireAuth _ _) =>
             unfold Auth.requireAuth
         end;
  auto with keeps.

Lemma stamps_createMessage messageData :
  keepsStamps (Storage.createMessage messageData).
Proof. unfold Storage.createMessage. stamps_steps. Qed.

#[local] Hint Resolve stamps_createMessage : keeps.

(** Every route keeps the invariant, whatever the request and whatever
    fails. *)
Theorem routes_keep_stamps (req : Request) :
  keepsStamps (Routes.register req)
  /\ keepsStamps (Routes.postConversation req)
  /\ keepsStamps (Routes.getConversation req)
  /\ keepsStamps (Routes.deleteConversation req)
  /\ keepsStamps (Routes.getMessages req)
  /\ keepsStamps (Routes.postMessage req).
Proof.
  repeat split.
  - unfold Routes.register. stamps_steps.
  - unfold Routes.postConversation. stamps_steps.
  - unfold Routes.getConversation. stamps_steps.
  - unfold Routes.deleteConversation. stamps_steps.
  - unfold Routes.getMessages. stamps_steps.
  - unfold Routes.postMessage, Routes.replyAndRecord, Routes.recoverReply.
    stamps_steps.
Qed.

(** Time passes. *)
Lemma stamps_later (t : Z) (w : World) :
  (now w <= t)%Z -> stampsInPast w -> stampsInPast (atTime t w).
Proof.
  unfold stampsInPast. simpl. intros Ht H.
  eapply Forall_impl; [|exact H]. simpl. intros c Hc. lia.
Qed.

End Stamps.

(** ** Sending a message *)

Section MessageClaims.
Context {rt : Runtime}.

Lemma falsy_text content :
  content <> EmptyString -> falsy (Some (JString content)) = false.
Proof. destruct content; [contradiction | reflexivity]. Qed.

Lemma replyAndRecord_undefined id content userMessage listed w :
  available w ->
  fst (Reply.generateReply content w) = Ok None ->
  Routes.replyAndRecord id content userMessage listed w
  = (Throw "null value in column content", w).
Proof.
  intros Hw Hreply. unfold Routes.replyAndRecord.
  unfold bind at 1.
  rewrite (generateReply_moved content None w w eq_refl Hreply).
  unfold bind at 1. now rewrite (createMessage_undefined _ _ w Hw).
Qed.

(** C4. When the reply fails while a message is handled, the apology is
    stored as the assistant's message of the conversation and the response
    is a 500 that carries the user message and that apology; both messages
    are in the store afterwards.  First, for every failure of the inner
    block, whatever its cause, once the request was accepted and the user
    message stored, and provided the apology can be stored.  Second, with
    the store available, when the cascade yields no reply. *)
Theorem C4_failed_reply_is_answered (req : Request) (userId content : string)
  (conversation : Conversation.t) (w : World) :
  Auth.caller req = Some userId ->
  field "content" (body req) = Some (JString content) ->
  content <> EmptyString ->
  Conversation.userId conversation = userId ->
  (forall (e : string) (userMessage errorMessage : Message.t)
          (listed : list Message.t) (w1 w2 w3 w4 w5 : World),
      Storage.getConversation (param_id req) w = (Ok (Some conversation), w1) ->
      Storage.createMessage
        {| im_conversationId := param_id req; im_content := Some content;
           im_role := user |} w1 = (Ok userMessage, w2) ->
      Storage.getMessages (param_id req) w2 = (Ok listed, w3) ->
      Routes.replyAndRecord (param_id req) content userMessage listed w3
      = (Throw e, w4) ->
      Storage.createMessage
        {| im_conversationId := param_id req; im_content := Some Reply.apology;
           im_role := assistant |} w4 = (Ok errorMessage, w5) ->
      Routes.postMessage req w
      = (Ok {| status := 500;
               payload := PChatError userMessage errorMessage
                            "Response generation temporarily unavailable" |}, w5)
      /\ In userMessage (messages w5)
      /\ In errorMessage (messages w5)
      /\ Message.conversationId errorMessage = param_id req
      /\ Message.role errorMessage = assistant
      /\ Message.content errorMessage = Reply.apology)
  /\ (available w ->
      find (Storage.conversationIs (param_id req)) (conversations w)
      = Some conversation ->
      fst (Reply.generateReply content w) = Ok None ->
      exists userMessage errorMessage w',
        Routes.postMessage req w
        = (Ok {| status := 500;
                 payload := PChatError userMessage errorMessage
                              "Response generation temporarily unavailable" |}, w')
        /\ In userMessage (messages w')
        /\ In errorMessage (messages w')
        /\ Message.conversationId errorMessage = param_id req
        /\ Message.role errorMessage = assistant
        /\ Message.content errorMessage = Reply.apology).
Proof.
  intros Hauth Hfield Hcontent Howner.
  split.
  - intros e userMessage errorMessage listed w1 w2 w3 w4 w5
      Hget Huser Hlist Hfail Hapology.
    split.
    + unfold Routes.postMessage.
      rewrite (requireAuth_caller _ _ _ Hauth), Hfield.
      rewrite (falsy_text _ Hcontent). simpl.
      unfold tryCatch at 1. unfold bind at 1. rewrite Hget.
      rewrite Howner, String.eqb_refl. simpl.
      unfold bind at 1. rewrite Huser.
      unfold bind at 1. rewrite Hlist.
      unfold tryCatch. rewrite Hfail.
      unfold Routes.recoverReply, bind. now rewrite Hapology.
    + destruct (createMessage_returns _ _ _ _ Huser) as [Hin _].
      destruct (createMessage_returns _ _ _ _ Hapology)
        as (Hin' & Hc & Hr & Ht).
      simpl in Hc, Hr, Ht.
      split; [|split; [exact Hin' | split; [exact Hc | split; [exact Hr|]]]].
      * pose proof (keeps_getMessages (param_id req) w2) as Hg.
        pose proof (keeps_replyAndRecord (param_id req) content userMessage
                      listed w3) as Hk.
        pose proof (keeps_createMessage
                      {| im_conversationId := param_id req;
                         im_content := Some Reply.apology;
                         im_role := assistant |} w4) as Ha.
        rewrite Hlist in Hg. rewrite Hfail in Hk. rewrite Hapology in Ha.
        apply Ha, Hk, Hg, Hin.
      * now inversion Ht.
  - intros Hw Hfind Hreply.
    set (id := param_id req) in *.
    set (um := insertedMessage id content user w).
    set (w1 := afterCreate um w).
    set (em := insertedMessage id Reply.apology assistant w1).
    exists um, em, (afterCreate em w1).
    assert (Hw1 : available w1) by exact Hw.
    split.
    + unfold Routes.postMessage.
      rewrite (requireAuth_caller _ _ _ Hauth), Hfield.
      rewrite (falsy_text _ Hcontent). simpl.
      unfold tryCatch at 1. unfold bind at 1.
      fold id. rewrite (getConversation_available id w Hw), Hfind.
      rewrite Howner, String.eqb_refl. simpl.
      unfold bind at 1. rewrite (createMessage_available id content user w Hw).
      fold um. fold w1.
      unfold bind at 1. rewrite (getMessages_available id w1 Hw1).
      unfold tryCatch.
      rewrite (replyAndRecord_undefined id content um _ w1 Hw1).
      * unfold Routes.recoverReply, bind.
        now rewrite (createMessage_available id Reply.apology assistant w1 Hw1).
      * rewrite <- Hreply. apply generateReply_same_clock. reflexivity.
    + simpl. repeat split.
      * apply in_or_app. left. apply in_or_app. right. now left.
      * apply in_or_app. right. now left.
Qed.

End MessageClaims.

(** ** The title of a conversation *)

Section TitleClaims.
Context {rt : Runtime}.

Lemma length_substring0 (n : nat) (s : string) :
  n <= String.length s -> String.length (Js.substring0 n s) = n.
Proof.
  unfold Js.substring0. revert s.
  induction n as [|n IH]; intros s H.
  - now destruct s.
  - destruct s as [|c s]; simpl in *; [lia|].
    rewrite IH; [reflexivity | lia].
Qed.

Lemma prefix_substring0 (n : nat) (s : string) :
  prefix (Js.substring0 n s) s = true.
Proof.
  unfold Js.substring0. revert s.
  induction n as [|n IH]; intros s.
  - now destruct s.
  - destruct s as [|c s]; simpl; [reflexivity|].
    destruct (ascii_dec c c) as [_|ne]; [apply IH | now destruct ne].
Qed.

(** The title derived from a content: the content when it has at most 50
    characters, else its first 50 characters and an ellipsis. *)
Lemma deriveTitle_spec (content : string) :
  (String.length content <= 50 -> Routes.deriveTitle content = content)
  /\ (50 < String.length content ->
      Routes.deriveTitle content = Js.substring0 50 content ++ "..."
      /\ String.length (Js.substring0 50 content) = 50
      /\ prefix (Js.substring0 50 content) content = true).
Proof.
  unfold Routes.deriveTitle. split; intros H.
  - destruct (Nat.ltb_spec 50 (String.length content)); [lia | reflexivity].
  - destruct (Nat.ltb_spec 50 (String.length content)); [|lia].
    split; [reflexivity|]. split; [apply length_substring0; lia|].
    apply prefix_substring0.
Qed.

Lemma replyAndRecord_available id content reply userMessage listed w :
  available w ->
  fst (Reply.generateReply content w) = Ok (Some reply) ->
  Routes.replyAndRecord id content userMessage listed w
  = (Ok {| status := 200;
           payload := PChat userMessage (insertedMessage id reply assistant w) |},
     afterReply id content (insertedMessage id reply assistant w) listed w).
Proof.
  intros Hw Hreply. unfold Routes.replyAndRecord.
  unfold bind at 1.
  rewrite (generateReply_moved content (Some reply) w w eq_refl Hreply).
  unfold bind at 1. rewrite (createMessage_available _ _ _ w Hw).
  unfold afterReply.
  set (w1 := afterCreate _ w).
  assert (Hw1 : available w1) by exact Hw.
  assert (Hn1 : now w1 = now w) by reflexivity.
  unfold bind at 1.
  destruct (List.length listed =? 1)%nat.
  - unfold bind at 1. rewrite (updateConversation_available _ _ w1 Hw1).
    rewrite Hn1.
    set (w2 := setConversations _ w1).
    assert (Hw2 : available w2) by exact Hw.
    unfold bind, newDate, respond, ret. cbv beta iota.
    rewrite (updateConversation_available _ _ w2 Hw2). reflexivity.
  - unfold bind, newDate, respond, ret. cbv beta iota.
    rewrite (updateConversation_available _ _ w1 Hw1). reflexivity.
Qed.

End TitleClaims.

Section TitleTheorem.
Context {rt : Runtime}.

Lemma messageOf_inserted id text role w :
  Storage.messageOf id (insertedMessage id text role w) = true.
Proof. apply String.eqb_refl. Qed.

Lemma messageCount_afterCreate id text role w :
  messageCount id (afterCreate (insertedMessage id text role w) w)
  = S (messageCount id w).
Proof.
  unfold messageCount, afterCreate, afterInsert. simpl.
  rewrite filter_app, length_app. simpl.
  rewrite messageOf_inserted. simpl. lia.
Qed.

Lemma titleOf_afterCreate id text role v w :
  titleOf id (afterCreate (insertedMessage id text role v) w) = titleOf id w.
Proof.
  unfold titleOf, afterCreate. simpl.
  rewrite find_updateWhere. now destruct (find _ _).
Qed.

Lemma titleOf_update id updates date v v' :
  titleOf id
    (setConversations (Storage.updateWhere id updates date (conversations v)) v')
  = match upd_title updates with
    | Some t => option_map (fun _ => t) (titleOf id v)
    | None => titleOf id v
    end.
Proof.
  unfold titleOf. simpl. rewrite find_updateWhere.
  destruct updates as [[t|] u], (find _ _); reflexivity.
Qed.

Lemma titleOf_afterReply id content text v listed w :
  titleOf id (afterReply id content (insertedMessage id text assistant v) listed w)
  = if (List.length listed =? 1)%nat
    then option_map (fun _ => Routes.deriveTitle content) (titleOf id w)
    else titleOf id w.
Proof.
  unfold afterReply.
  destruct (List.length listed =? 1)%nat;
    rewrite !titleOf_update; simpl; now rewrite titleOf_afterCreate.
Qed.

Lemma messageCount_afterReply id content text listed w :
  messageCount id
    (afterReply id content (insertedMessage id text assistant w) listed w)
  = S (messageCount id w).
Proof.
  rewrite <- (messageCount_afterCreate id text assistant w).
  unfold afterReply.
  destruct (List.length listed =? 1)%nat; reflexivity.
Qed.

(** The title of an answered message.  A message sent to one's own
    conversation, answered by the cascade with the store available, gets
    the response 200; when it is the first message of the conversation (the
    count after appending it is 1) the title becomes the content, cut to its
    first 50 characters and an ellipsis when longer; otherwise the title
    stays as it was; and the conversation then holds two messages more. *)
Lemma title_of_answered_message (req : Request)
  (userId content reply : string) (conversation : Conversation.t) (w : World) :
  available w ->
  Auth.caller req = Some userId ->
  field "content" (body req) = Some (JString content) ->
  content <> EmptyString ->
  find (Storage.conversationIs (param_id req)) (conversations w)
  = Some conversation ->
  Conversation.userId conversation = userId ->
  fst (Reply.generateReply content w) = Ok (Some reply) ->
  (exists userMessage aiMessage w',
      Routes.postMessage req w
      = (Ok {| status := 200; payload := PChat userMessage aiMessage |}, w')
      /\ (S (messageCount (param_id req) w) = 1 ->
          titleOf (param_id req) w' = Some (Routes.deriveTitle content))
      /\ (S (messageCount (param_id req) w) <> 1 ->
          titleOf (param_id req) w' = Some (Conversation.title conversation))
      /\ messageCount (param_id req) w' = messageCount (param_id req) w + 2)
  /\ (String.length content <= 50 -> Routes.deriveTitle content = content)
  /\ (50 < String.length content ->
      Routes.deriveTitle content = Js.substring0 50 content ++ "..."
      /\ String.length (Js.substring0 50 content) = 50
      /\ prefix (Js.substring0 50 content) content = true).
Proof.
  intros Hw Hauth Hfield Hcontent Hfind Howner Hreply.
  split; [|exact (deriveTitle_spec content)].
  set (id := param_id req) in *.
  set (um := insertedMessage id content user w).
  set (w1 := afterCreate um w).
  set (listed := Storage.orderByCreatedAt
                   (List.filter (Storage.messageOf id) (messages w1))).
  set (am := insertedMessage id reply assistant w1).
  exists um, am, (afterReply id content am listed w1).
  assert (Hw1 : available w1) by exact Hw.
  assert (Hcount : List.length listed = S (messageCount id w)).
  { unfold listed. rewrite length_orderByCreatedAt.
    apply (messageCount_afterCreate id content user w). }
  assert (Htitle1 : titleOf id w1 = Some (Conversation.title conversation)).
  { unfold w1, um. rewrite titleOf_afterCreate. unfold titleOf.
    now rewrite Hfind. }
  split; [|split; [|split]].
  - unfold Routes.postMessage.
    rewrite (requireAuth_caller _ _ _ Hauth), Hfield.
    rewrite (falsy_text _ Hcontent). simpl.
    unfold tryCatch at 1. unfold bind at 1.
    fold id. rewrite (getConversation_available id w Hw), Hfind.
    rewrite Howner, String.eqb_refl. simpl.
    unfold bind at 1. rewrite (createMessage_available id content user w Hw).
    fold um. fold w1.
    unfold bind at 1. rewrite (getMessages_available id w1 Hw1). fold listed.
    unfold tryCatch.
    rewrite (replyAndRecord_available id content reply um listed w1 Hw1).
    + reflexivity.
    + rewrite <- Hreply. apply generateReply_same_clock. reflexivity.
  - intros H1. unfold am. rewrite titleOf_afterReply, Hcount, H1, Htitle1.
    reflexivity.
  - intros H1. unfold am. rewrite titleOf_afterReply, Hcount, Htitle1.
    destruct (Nat.eqb_spec (S (messageCount id w)) 1); [contradiction|].
    reflexivity.
  - unfold am. rewrite messageCount_afterReply.
    unfold w1, um. rewrite messageCount_afterCreate. lia.
Qed.



End TitleTheorem.

(** ** The properties on the example store *)

Lemma C3_existence_before_ownership_witness :
  Routes.getConversation (rt := Demo.runtime) (Demo.request "u1" "c9" [])
    Demo.world
  = (Ok {| status := 404; payload := PMessage "Conversation not found" |},
     Demo.world)
  /\ Routes.getConversation (rt := Demo.runtime) (Demo.request "u2" "c1" [])
       Demo.world
     = (Ok {| status := 403; payload := PMessage "Access denied" |}, Demo.world).
Proof.
  split.
  - apply (proj1 (C3_existence_before_ownership (rt := Demo.runtime)
                    (Demo.request "u1" "c9" []) "u1" Demo.world
                    eq_refl eq_refl)).
    reflexivity.
  - apply (proj2 (C3_existence_before_ownership (rt := Demo.runtime)
                    (Demo.request "u2" "c1" []) "u2" Demo.world
                    eq_refl eq_refl) Demo.chat).
    + reflexivity.
    + discriminate.
Defined.

Lemma C8_duplicate_username_witness :
  Routes.register (rt := Demo.runtime)
    {| authorization := None; param_id := EmptyString;
       body := [("username", JString "alice"); ("password", JString "other")] |}
    Demo.world
  = (Ok {| status := 400; payload := PMessage "Username already exists" |},
     Demo.world).
Proof.
  apply (proj1 (C8_duplicate_username (rt := Demo.runtime)
                  {| authorization := None; param_id := EmptyString;
                     body := [("username", JString "alice");
                              ("password", JString "other")] |}
                  {| iu_username := "alice"; iu_password := "other" |}
                  (User.mk "u1" "alice" "$2a$10$secret") Demo.world
                  eq_refl eq_refl)).
  reflexivity.
Defined.

Lemma C10_owner_is_caller_witness :
  exists conversation w',
    Routes.postConversation (rt := Demo.runtime)
      (Demo.request "u1" EmptyString
         [("title", JString "Trip"); ("userId", JString "u2")])
      Demo.world
    = (Ok {| status := 200; payload := PConversation conversation |}, w')
    /\ Conversation.userId conversation = "u1".
Proof.
  apply (proj2 (C10_owner_is_caller (rt := Demo.runtime)
                  (Demo.request "u1" EmptyString
                     [("title", JString "Trip"); ("userId", JString "u2")])
                  "u1" Demo.world eq_refl)
           {| ic_title := Some "Trip"; ic_userId := Some "u2" |}).
  - reflexivity.
  - reflexivity.
Defined.

Lemma C6_createMessage_bumps_parent_witness :
  exists parent',
    find (Storage.conversationIs "c1")
      (conversations
         (snd (Storage.createMessage
                 {| im_conversationId := "c1"; im_content := Some "hello";
                    im_role := user |} Demo.world)))
    = Some parent'
    /\ Conversation.updatedAt parent' = 1700000000000%Z
    /\ (1699999990000 <= Conversation.updatedAt parent')%Z.
Proof.
  apply (proj1 (C6_createMessage_bumps_parent
                  {| im_conversationId := "c1"; im_content := Some "hello";
                     im_role := user |} Demo.chat Demo.world eq_refl
                  ltac:(simpl; lia))
           (insertedMessage "c1" "hello" user Demo.world)).
  reflexivity.
Defined.

Lemma C7_deleteConversation_cascades_witness :
  fst (Storage.deleteConversation "c1" Demo.chatting)
  = Ok true
  /\ List.filter (Storage.messageOf "c1")
       (messages
          (snd (Storage.deleteConversation "c1" Demo.chatting))) = [].
Proof.
  split; [reflexivity|].
  apply (proj1 (C7_deleteConversation_cascades "c1" Demo.chatting) true).
  reflexivity.
Defined.

Lemma C4_failed_reply_is_answered_witness :
  exists userMessage errorMessage w',
    Routes.postMessage (rt := Demo.runtime)
      (Demo.request "u1" "c1" (Demo.saying "explain")) Demo.world
    = (Ok {| status := 500;
             payload := PChatError userMessage errorMessage
                          "Response generation temporarily unavailable" |}, w')
    /\ In userMessage (messages w')
    /\ In errorMessage (messages w')
    /\ Message.conversationId errorMessage = "c1"
    /\ Message.role errorMessage = assistant
    /\ Message.content errorMessage = Reply.apology.
Proof.
  apply (proj2 (C4_failed_reply_is_answered (rt := Demo.runtime)
                  (Demo.request "u1" "c1" (Demo.saying "explain"))
                  "u1" "explain" Demo.chat Demo.world
                  eq_refl eq_refl ltac:(discriminate) eq_refl)).
  - reflexivity.
  - reflexivity.
  - reflexivity.
Defined.

Lemma title_of_answered_message_witness :
  exists userMessage aiMessage w',
    Routes.postMessage (rt := Demo.runtime)
      (Demo.request "u1" "c1" (Demo.saying "hello")) Demo.world
    = (Ok {| status := 200; payload := PChat userMessage aiMessage |}, w')
    /\ titleOf "c1" w' = Some "hello".
Proof.
  destruct (proj1 (title_of_answered_message (rt := Demo.runtime)
                     (Demo.request "u1" "c1" (Demo.saying "hello"))
                     "u1" "hello" Reply.greeting Demo.chat Demo.world
                     eq_refl eq_refl eq_refl ltac:(discriminate)
                     eq_refl eq_refl eq_refl))
    as (userMessage & aiMessage & w' & Hrun & Hfirst & _).
  exists userMessage, aiMessage, w'.
  split; [exact Hrun|]. exact (Hfirst eq_refl).
Defined.


(** ** Runs on the example store *)

Example product_text (rt : Runtime) :
  Reply.product "12" "4"
  = "The answer is: **48**" ++ Js.nl ++ Js.nl ++ "Calculation: 12 Ã— 4 = 48".
Proof. reflexivity. Qed.

Example send_product :
  replyOf (send "what is 12 x 4?" Demo.world)
  = Some ("The answer is: **48**" ++ Js.nl ++ Js.nl ++
          "Calculation: 12 Ã— 4 = 48").
Proof. reflexivity. Qed.

Example send_large_product :
  replyOf (send "123 x 456" Demo.world)
  = Some ("The answer is: **56,088**" ++ Js.nl ++ Js.nl ++
          "Calculation: 123 Ã— 456 = 56,088").
Proof. reflexivity. Qed.

(** The math rule comes first: a greeting with a hyphen or an x in it is
    no greeting. *)
Example send_greeting_with_hyphen :
  replyOf (send "hello, anyone there?" Demo.world) = Some Reply.greeting
  /\ replyOf (send "hello - anyone there?" Demo.world)
     = Some Reply.clarification
  /\ replyOf (send "hello, explain this" Demo.world) = Some Reply.apology.
Proof. repeat split. Qed.

(** The first message names the conversation, the second leaves the name. *)
Example send_twice :
  let w1 := snd (send "hello" Demo.world) in
  let w2 := snd (send "thank you" w1) in
  titleOf "c1" Demo.world = Some "New Conversation"
  /\ titleOf "c1" w1 = Some "hello"
  /\ titleOf "c1" w2 = Some "hello"
  /\ messageCount "c1" w2 = 4.
Proof. repeat split. Qed.

(** A first message that gets no reply leaves the default title, and the
    messages after it leave it too. *)
Example send_unanswered_first :
  let w1 := snd (send "explain" Demo.world) in
  let w2 := snd (send "good morning" w1) in
  replyOf (send "explain" Demo.world) = Some Reply.apology
  /\ titleOf "c1" w1 = Some "New Conversation"
  /\ replyOf (send "good morning" w1) = Some (Reply.fallback "good morning")
  /\ titleOf "c1" w2 = Some "New Conversation"
  /\ messageCount "c1" w2 = 4.
Proof. repeat split. Qed.

(** A long first message is cut at 50 characters. *)
Example send_long :
  titleOf "c1"
    (snd (send "tell me everything there is to know about the history of Rome"
            Demo.world))
  = Some "tell me everything there is to know about the hist...".
Proof. reflexivity. Qed.

(** * Further properties of the server and the client *)

(** ** The middleware *)

Section AuthExtras.
Context {rt : Runtime} {cr : Credentials}.

(** The middleware of the claims is the general one, at their responses. *)
Lemma requireAuth_general (req : Request) (next : string -> M Response) :
  Auth.requireAuth req next
  = Rest.requireAuth (fun m => respond 401 (PMessage m)) req next.
Proof. reflexivity. Qed.

Lemma rest_requireAuth_caller {R} (reject : string -> M R) req userId next :
  Auth.caller req = Some userId ->
  Rest.requireAuth reject req next = next userId.
Proof.
  unfold Auth.caller, Rest.requireAuth.
  destruct (Auth.bearerToken _) as [token|]; [|discriminate].
  destruct (Js.isEmpty token); [discriminate|].
  now intros ->.
Qed.

Lemma rest_requireAuth_rejects {R} (reject : string -> M R) req next :
  Auth.caller req = None ->
  Rest.requireAuth reject req next = reject (rejection req).
Proof.
  unfold Auth.caller, Rest.requireAuth, rejection.
  destruct (Auth.bearerToken _) as [[|c token]|]; try reflexivity.
  simpl. now intros ->.
Qed.

Lemma prefix_split (p h : string) :
  prefix p h = true -> exists t, h = p ++ t.
Proof.
  revert h. induction p as [|c p IH]; intros h H.
  - now exists h.
  - destruct h as [|d h]; simpl in H; [discriminate|].
    destruct (ascii_dec c d) as [->|]; [|discriminate].
    destruct (IH h H) as [t ->]. now exists t.
Qed.

Lemma substring_after (p t : string) :
  substring (String.length p) (String.length (p ++ t) - String.length p) (p ++ t)
  = t.
Proof.
  induction p as [|c p IH]; simpl.
  - rewrite Nat.sub_0_r. induction t as [|d t IHt]; simpl; [reflexivity|].
    now rewrite IHt.
  - exact IH.
Qed.

(** X1. The token of a request is what follows [Bearer ] in its
    authorization header, and a header that does not start so carries
    none. *)
Theorem bearerToken_iff (h t : string) :
  Auth.bearerToken (Some h) = Some t <-> h = "Bearer " ++ t.
Proof.
  unfold Auth.bearerToken. split.
  - destruct (prefix "Bearer " h) eqn:E; [|discriminate].
    destruct (prefix_split _ _ E) as [t' ->].
    change 7 with (String.length "Bearer ").
    rewrite substring_after. now intros [= ->].
  - intros ->. rewrite prefix_append.
    change 7 with (String.length "Bearer ").
    now rewrite substring_after.
Qed.

(** X2. A request without a verified token is answered 401 by every
    protected route, with the message of its defect: no handler runs, no
    statement reaches the store, and the world stays as it was. *)
Theorem unauthenticated_is_rejected (req : Request) (w : World) :
  Auth.caller req = None ->
  let refused := (Ok {| status := 401; payload := PMessage (rejection req) |}, w) in
  let refused' := (Ok {| Rest.code := 401; Rest.json := Rest.JMessage (rejection req) |}, w) in
  Routes.postConversation req w = refused
  /\ Routes.getConversation req w = refused
  /\ Routes.deleteConversation req w = refused
  /\ Routes.getMessages req w = refused
  /\ Routes.postMessage req w = refused
  /\ Rest.me req w = refused'
  /\ Rest.getConversations req w = refused'.
Proof.
  intros H. cbv zeta.
  unfold Routes.postConversation, Routes.getConversation,
    Routes.deleteConversation, Routes.getMessages, Routes.postMessage,
    Rest.me, Rest.getConversations.
  rewrite !requireAuth_general, !(rest_requireAuth_rejects _ _ _ H).
  repeat split.
Qed.

End AuthExtras.

Lemma bearerToken_iff_witness :
  Auth.bearerToken (Some "Bearer jwt.u1") = Some "jwt.u1"
  /\ Auth.bearerToken (Some "bearer jwt.u1") = None.
Proof.
  split.
  - apply (proj2 (bearerToken_iff "Bearer jwt.u1" "jwt.u1")). reflexivity.
  - reflexivity.
Defined.

Lemma unauthenticated_is_rejected_witness :
  Routes.postMessage (rt := Demo.runtime)
    {| authorization := Some "Bearer forged"; param_id := "c1";
       body := Demo.saying "hello" |} Demo.world
  = (Ok {| status := 401; payload := PMessage "Invalid or expired token" |},
     Demo.world).
Proof.
  apply (proj1 (proj2 (proj2 (proj2 (proj2
           (unauthenticated_is_rejected (rt := Demo.runtime)
              {| authorization := Some "Bearer forged"; param_id := "c1";
                 body := Demo.saying "hello" |} Demo.world eq_refl)))))).
Defined.

(** ** What the routes leave alone *)

Lemma sameTables_refl w : sameTables w w.
Proof. now repeat split. Qed.

Lemma sameTables_trans a b c : sameTables a b -> sameTables b c -> sameTables a c.
Proof.
  unfold sameTables. intros (U & C & Ms & N) (U' & C' & Ms' & N').
  repeat split; congruence.
Qed.

Lemma grownBy_refl P w : grownBy P w w.
Proof. exists []. split; [now rewrite app_nil_r | constructor]. Qed.

Lemma grownBy_trans P a b c : grownBy P a b -> grownBy P b c -> grownBy P a c.
Proof.
  intros (x & Hx & Px) (y & Hy & Py). exists (x ++ y)%list. split.
  - now rewrite Hy, Hx, app_assoc.
  - apply Forall_app. now split.
Qed.

Lemma sameTables_grownBy P w w' : sameTables w w' -> grownBy P w w'.
Proof.
  intros (_ & _ & H & _). exists []. split; [now rewrite app_nil_r | constructor].
Qed.

(** Walks through a computation, one [bind] and one [try] at a time. *)
Ltac walk refl trans :=
  repeat first
    [ match goal with
      | |- preserves _ (bind _ _) => apply (preserves_bind _ trans); [|intros ?]
      | |- preserves _ (tryCatch _ _) =>
          apply (preserves_tryCatch _ trans); [|intros ?]
      | |- preserves _ (ret _) => apply (preserves_ret _ refl)
      | |- preserves _ (respond _ _) => apply (preserves_ret _ refl)
      | |- preserves _ (Rest.answer _ _) => apply (preserves_ret _ refl)
      | |- preserves _ (throw _) => apply (preserves_throw _ refl)
      | |- preserves _ newDate => apply (preserves_newDate _ refl)
      | |- preserves _ (match ?x with _ => _ end) => destruct x
      end ];
  auto with keeps.

Section Frames.
Context {rt : Runtime} {cr : Credentials}.

Lemma same_statement : preserves sameTables statement.
Proof.
  intros w. unfold statement.
  destruct (faults w) as [|[] f]; now repeat split.
Qed.

Lemma same_getUserByUsername name :
  preserves sameTables (Storage.getUserByUsername name).
Proof.
  intros w. unfold Storage.getUserByUsername, bind, statement.
  destruct (faults w) as [|[] f]; now repeat split.
Qed.

Lemma same_getUser id : preserves sameTables (Store.getUser id).
Proof.
  intros w. unfold Store.getUser, bind, statement.
  destruct (faults w) as [|[] f]; now repeat split.
Qed.

Lemma same_getConversation id : preserves sameTables (Storage.getConversation id).
Proof.
  intros w. unfold Storage.getConversation, bind, statement.
  destruct (faults w) as [|[] f]; now repeat split.
Qed.

Lemma same_getConversations userId :
  preserves sameTables (Store.getConversations userId).
Proof.
  intros w. unfold Store.getConversations, bind, statement.
  destruct (faults w) as [|[] f]; now repeat split.
Qed.

Lemma same_getMessages id : preserves sameTables (Storage.getMessages id).
Proof.
  intros w. unfold Storage.getMessages, bind, statement.
  destruct (faults w) as [|[] f]; now repeat split.
Qed.

Lemma same_getMessage id : preserves sameTables (Store.getMessage id).
Proof.
  intros w. unfold Store.getMessage, bind, statement.
  destruct (faults w) as [|[] f]; now repeat split.
Qed.

Lemma same_generateReply content :
  preserves sameTables (Reply.generateReply content).
Proof.
  intros w. destruct (generateReply_returns content w) as [r ->].
  apply sameTables_refl.
Qed.

#[local] Hint Resolve same_statement same_getUserByUsername same_getUser
  same_getConversation same_getConversations same_getMessages same_getMessage
  same_generateReply : keeps.

Lemma same_authenticateUser credentials :
  preserves sameTables (Store.authenticateUser credentials).
Proof.
  unfold Store.authenticateUser. walk sameTables_refl sameTables_trans.
Qed.

#[local] Hint Resolve same_authenticateUser : keeps.

(** X3. The routes that read change nothing: after [GET] of a
    conversation, of its messages, of the conversations, of the account,
    after a login and after a logout the users, the conversations, the
    messages and the clock are what they were, whatever the request and
    whatever fails in the store. *)
Theorem reading_routes_change_nothing (req : Request) (w : World) :
  sameTables w (snd (Routes.getConversation req w))
  /\ sameTables w (snd (Routes.getMessages req w))
  /\ sameTables w (snd (Rest.getConversations req w))
  /\ sameTables w (snd (Rest.me req w))
  /\ sameTables w (snd (Rest.login req w))
  /\ sameTables w (snd (Rest.logout req w)).
Proof.
  repeat split;
    match goal with
    | |- ?R w (snd (?c w)) => change (preserves sameTables c)
    | |- ?f (snd (?c w)) = ?f w =>
        let H := fresh in
        assert (H : preserves sameTables c);
        [|destruct (H w) as (? & ? & ? & ?); assumption]
    end;
    unfold Routes.getConversation, Routes.getMessages, Rest.getConversations,
      Rest.me, Rest.login, Rest.logout, Auth.requireAuth, Rest.requireAuth,
      Rest.unauthorized;
    walk sameTables_refl sameTables_trans.
Qed.

(** The lookup of a conversation, whatever the store does: the first row
    with the id, or a failure; the tables stay. *)
Lemma getConversation_cases id w :
  exists w1,
    sameTables w w1
    /\ (Storage.getConversation id w
        = (Ok (find (Storage.conversationIs id) (conversations w)), w1)
        \/ exists e, Storage.getConversation id w = (Throw e, w1)).
Proof.
  unfold Storage.getConversation, bind, statement.
  destruct (faults w) as [|[] f].
  - exists w. split; [apply sameTables_refl | now left].
  - exists (setFaults f w). split; [now repeat split | right; now eexists].
  - exists (setFaults f w). split; [now repeat split | now left].
Qed.

End Frames.

(** ** What the routes answer *)

Section Returns.
Context {A B : Type}.

Lemma returns_ret (Q : A -> Prop) (a : A) : Q a -> returns Q (ret a).
Proof. intros H w a' w' E. now inversion E; subst. Qed.

Lemma returns_throw (Q : A -> Prop) e : returns Q (throw e).
Proof. intros w a w' E. discriminate. Qed.

Lemma returns_bind (Q : B -> Prop) (c : M A) (k : A -> M B) :
  (forall a, returns Q (k a)) -> returns Q (bind c k).
Proof.
  intros Hk w b w' E. unfold bind in E.
  destruct (c w) as [[a|e] w1]; [|discriminate].
  exact (Hk a w1 b w' E).
Qed.

Lemma returns_tryCatch (Q : A -> Prop) (c : M A) (h : string -> M A) :
  returns Q c -> (forall e, returns Q (h e)) -> returns Q (tryCatch c h).
Proof.
  intros Hc Hh w a w' E. unfold tryCatch in E.
  destruct (c w) as [[a1|e] w1] eqn:Ec.
  - inversion E; subst. exact (Hc w a w' Ec).
  - exact (Hh e w1 a w' E).
Qed.

Lemma answers_ret (Q : A -> Prop) (a : A) : Q a -> answers Q (ret a).
Proof. intros H w. now exists a, w. Qed.

(** A [try] whose handler answers answers. *)
Lemma answers_tryCatch (Q : A -> Prop) (c : M A) (h : string -> M A) :
  returns Q c -> (forall e, answers Q (h e)) -> answers Q (tryCatch c h).
Proof.
  intros Hc Hh w. unfold tryCatch.
  destruct (c w) as [[a|e] w1] eqn:Ec.
  - exists a, w1. split; [reflexivity | exact (Hc w a w1 Ec)].
  - apply Hh.
Qed.

End Returns.

(** Decides what a computation can return, one [bind] and one [try] at a
    time. *)
Ltac settle :=
  repeat match goal with
         | |- returns _ (bind _ _) => apply returns_bind; intros ?
         | |- returns _ (tryCatch _ _) => apply returns_tryCatch; [|intros ?]
         | |- returns _ (throw _) => apply returns_throw
         | |- returns _ (ret _) => apply returns_ret
         | |- returns _ (respond _ _) => apply returns_ret
         | |- returns _ (Rest.answer _ _) => apply returns_ret
         | |- returns _ (match ?x with _ => _ end) => destruct x
         | |- answers _ (tryCatch _ _) => apply answers_tryCatch; [|intros ?]
         | |- answers _ (ret _) => apply answers_ret
         | |- answers _ (respond _ _) => apply answers_ret
         | |- answers _ (Rest.answer _ _) => apply answers_ret
         | |- answers _ (match ?x with _ => _ end) => destruct x
         end.

Section Answers.
Context {rt : Runtime} {cr : Credentials}.

(** X4. Every route answers every request, whatever fails in the store,
    and with one of its own status codes: no exception leaves a handler. *)
Theorem routes_always_answer (req : Request) :
  answers (statusIn [200; 400]) (Routes.register req)
  /\ answers (codeIn [200; 400; 401]) (Rest.login req)
  /\ answers (codeIn [200]) (Rest.logout req)
  /\ answers (codeIn [200; 401; 404; 500]) (Rest.me req)
  /\ answers (codeIn [200; 401; 500]) (Rest.getConversations req)
  /\ answers (statusIn [200; 400; 401]) (Routes.postConversation req)
  /\ answers (statusIn [200; 401; 403; 404; 500]) (Routes.getConversation req)
  /\ answers (statusIn [200; 401; 403; 404; 500]) (Routes.deleteConversation req)
  /\ answers (statusIn [200; 401; 403; 404; 500]) (Routes.getMessages req)
  /\ answers (statusIn [200; 400; 401; 403; 404; 500]) (Routes.postMessage req).
Proof.
  unfold Routes.register, Rest.login, Rest.logout, Rest.me,
    Rest.getConversations, Routes.postConversation, Routes.getConversation,
    Routes.deleteConversation, Routes.getMessages, Routes.postMessage,
    Routes.replyAndRecord, Routes.recoverReply,
    Auth.requireAuth, Rest.requireAuth, Rest.unauthorized.
  repeat split; settle; unfold statusIn, codeIn; simpl; tauto.
Qed.

End Answers.

(** ** Sending a message: what is checked and what is stored *)

Lemma preserves_weaken (R R' : World -> World -> Prop) {A} (c : M A) :
  (forall w w', R w w' -> R' w w') -> preserves R c -> preserves R' c.
Proof. intros H Hc w. apply H, Hc. Qed.

Lemma postedTo_refl id w : postedTo id w w.
Proof. split; [reflexivity | apply grownBy_refl]. Qed.

Lemma postedTo_trans id a b c :
  postedTo id a b -> postedTo id b c -> postedTo id a c.
Proof.
  intros (U & G) (U' & G'). split; [congruence|].
  eapply grownBy_trans; eassumption.
Qed.

Lemma sameTables_postedTo id w w' : sameTables w w' -> postedTo id w w'.
Proof.
  intros H. split; [apply H | now apply sameTables_grownBy].
Qed.

Section Sending.
Context {rt : Runtime}.

Lemma posted_insertMessage id content role :
  preserves (postedTo id)
    (Storage.insertMessage
       {| im_conversationId := id; im_content := content; im_role := role |}).
Proof.
  intros w.
  unfold Storage.insertMessage, Storage.requireContent, bind, statement.
  destruct content as [text|], (faults w) as [|[] f]; simpl;
    try apply postedTo_refl;
    try (apply sameTables_postedTo; now repeat split);
    (split; [reflexivity|]); eexists; (split; [reflexivity|]);
    repeat constructor.
Qed.

Lemma posted_updateConversation id id' updates :
  preserves (postedTo id) (Storage.updateConversation id' updates).
Proof.
  intros w.
  unfold Storage.updateConversation, bind, statement, newDate.
  destruct (faults w) as [|[] f]; simpl;
    (split; [reflexivity|]); exists []; simpl;
    (split; [now rewrite app_nil_r | constructor]).
Qed.

Lemma posted_getMessages id id' : preserves (postedTo id) (Storage.getMessages id').
Proof.
  apply (preserves_weaken sameTables); [apply sameTables_postedTo|].
  apply same_getMessages.
Qed.

Lemma posted_generateReply id content :
  preserves (postedTo id) (Reply.generateReply content).
Proof.
  apply (preserves_weaken sameTables); [apply sameTables_postedTo|].
  apply same_generateReply.
Qed.

#[local] Hint Resolve posted_insertMessage posted_updateConversation
  posted_getMessages posted_generateReply : keeps.

Lemma posted_createMessage id content role :
  preserves (postedTo id)
    (Storage.createMessage
       {| im_conversationId := id; im_content := content; im_role := role |}).
Proof.
  unfold Storage.createMessage. simpl.
  walk (postedTo_refl id) (postedTo_trans id).
Qed.

#[local] Hint Resolve posted_createMessage : keeps.

(** Once the conversation is found to be the caller's. *)
Lemma posted_exchange id content :
  preserves (postedTo id)
    (userMessage <- Storage.createMessage
       {| im_conversationId := id; im_content := Some content;
          im_role := user |} ;;
     messages <- Storage.getMessages id ;;
     tryCatch (Routes.replyAndRecord id content userMessage messages)
       (fun _ => Routes.recoverReply id userMessage)).
Proof.
  unfold Routes.replyAndRecord, Routes.recoverReply.
  walk (postedTo_refl id) (postedTo_trans id).
Qed.

(** X5. A message request whose content is missing, is no string or is
    empty is answered 400 before the store is asked anything, and the world
    stays as it was; a request with a text is never answered 400. *)
Theorem postMessage_requires_text (req : Request) (userId : string) (w : World) :
  Auth.caller req = Some userId ->
  ((forall text,
       field "content" (body req) = Some (JString text) -> text = EmptyString) ->
   Routes.postMessage req w
   = (Ok {| status := 400; payload := PMessage "Message content is required" |},
      w))
  /\ (forall text response w',
         field "content" (body req) = Some (JString text) ->
         text <> EmptyString ->
         Routes.postMessage req w = (Ok response, w') ->
         status response <> 400).
Proof.
  intros Hauth. unfold Routes.postMessage.
  rewrite (requireAuth_caller _ _ _ Hauth). split.
  - intros H. unfold tryCatch.
    destruct (field "content" (body req)) as [[ |b|x|text| ]|];
      try (now rewrite orb_true_r).
    now rewrite (H text eq_refl).
  - intros text response w' Hfield Htext.
    rewrite Hfield, (falsy_text _ Htext). simpl.
    revert w response w'.
    change (returns (fun r => status r <> 400)
              (tryCatch
                 (conversation <- Storage.getConversation (param_id req) ;;
                  match conversation with
                  | Some conversation =>
                      if negb (Conversation.userId conversation =? userId)%string
                      then respond 403 (PMessage "Access denied")
                      else
                        userMessage <- Storage.createMessage
                          {| im_conversationId := param_id req;
                             im_content := Some text; im_role := user |} ;;
                        messages <- Storage.getMessages (param_id req) ;;
                        tryCatch
                          (Routes.replyAndRecord (param_id req) text
                             userMessage messages)
                          (fun _ => Routes.recoverReply (param_id req) userMessage)
                  | None => respond 404 (PMessage "Conversation not found")
                  end)
                 (fun _ => respond 500 (PMessage "Failed to process message")))).
    unfold Routes.replyAndRecord, Routes.recoverReply.
    settle; simpl; discriminate.
Qed.

(** A request on a conversation that is not the caller's changes no
    table. *)
Lemma postMessage_stranger (req : Request) (userId : string) (w : World) :
  Auth.caller req = Some userId ->
  (forall c,
      find (Storage.conversationIs (param_id req)) (conversations w) = Some c ->
      Conversation.userId c <> userId) ->
  sameTables w (snd (Routes.postMessage req w)).
Proof.
  intros Hauth Hnot. unfold Routes.postMessage.
  rewrite (requireAuth_caller _ _ _ Hauth). unfold tryCatch at 1.
  destruct (falsy _ || _); [apply sameTables_refl|].
  unfold bind at 1.
  destruct (getConversation_cases (param_id req) w) as (w1 & Hs & [E|[e E]]);
    rewrite E; [|exact Hs].
  destruct (find _ _) as [c|]; [|exact Hs].
  now rewrite (eqb_neq_true _ _ (Hnot c eq_refl)).
Qed.

(** X6. Sending a message never touches the users, never removes or
    alters a stored message, and stores messages only in the conversation of
    the request, and only when that conversation is the caller's: whatever
    the request and whatever fails. *)
Theorem postMessage_stores_for_owner (req : Request) (userId : string)
  (w : World) :
  Auth.caller req = Some userId ->
  users (snd (Routes.postMessage req w)) = users w
  /\ exists added,
       messages (snd (Routes.postMessage req w)) = (messages w ++ added)%list
       /\ Forall (inConversation (param_id req)) added
       /\ (added <> [] ->
           exists c,
             find (Storage.conversationIs (param_id req)) (conversations w)
             = Some c
             /\ Conversation.userId c = userId).
Proof.
  intros Hauth.
  assert (Hp : postedTo (param_id req) w (snd (Routes.postMessage req w))).
  { revert w. change (preserves (postedTo (param_id req)) (Routes.postMessage req)).
    unfold Routes.postMessage. rewrite (requireAuth_caller _ _ _ Hauth).
    unfold Routes.replyAndRecord, Routes.recoverReply.
    pose proof (preserves_weaken sameTables (postedTo (param_id req))
                  (Storage.getConversation (param_id req))
                  (sameTables_postedTo _) (same_getConversation _)).
    walk (postedTo_refl (param_id req)) (postedTo_trans (param_id req)). }
  destruct Hp as (Hu & added & Hm & Hf).
  split; [exact Hu|]. exists added. split; [exact Hm|]. split; [exact Hf|].
  intros Hadded.
  destruct (find (Storage.conversationIs (param_id req)) (conversations w))
    as [c|] eqn:Hfind.
  - destruct (String.eqb_spec (Conversation.userId c) userId) as [Ho|Ho].
    + now exists c.
    + destruct (postMessage_stranger req userId w Hauth) as (_ & _ & Hsame & _).
      { intros c' Hc'. rewrite Hfind in Hc'. now inversion Hc'; subst. }
      rewrite Hsame in Hm. rewrite <- (app_nil_r (messages w)) in Hm at 1.
      apply app_inv_head in Hm. now subst.
  - destruct (postMessage_stranger req userId w Hauth) as (_ & _ & Hsame & _).
    { intros c' Hc'. rewrite Hfind in Hc'. discriminate. }
    rewrite Hsame in Hm. rewrite <- (app_nil_r (messages w)) in Hm at 1.
    apply app_inv_head in Hm. now subst.
Qed.

End Sending.

(** ** Listings *)

Section Listings.
Context {rt : Runtime}.

Lemma insertByCreatedAt_perm m l :
  Permutation (m :: l) (Storage.insertByCreatedAt m l).
Proof.
  induction l as [|x l IH]; simpl; [reflexivity|].
  destruct (_ <=? _)%Z; [reflexivity|].
  rewrite perm_swap. now constructor.
Qed.

Lemma orderByCreatedAt_perm l : Permutation l (Storage.orderByCreatedAt l).
Proof.
  unfold Storage.orderByCreatedAt.
  induction l as [|x l IH]; simpl; [constructor|].
  rewrite <- insertByCreatedAt_perm. now constructor.
Qed.



Lemma insertByUpdatedAt_perm c l :
  Permutation (c :: l) (Store.insertByUpdatedAt c l).
Proof.
  induction l as [|x l IH]; simpl; [reflexivity|].
  destruct (_ <=? _)%Z; [reflexivity|].
  rewrite perm_swap. now constructor.
Qed.

Lemma orderByUpdatedAtDesc_perm l : Permutation l (Store.orderByUpdatedAtDesc l).
Proof.
  unfold Store.orderByUpdatedAtDesc.
  induction l as [|x l IH]; simpl; [constructor|].
  rewrite <- insertByUpdatedAt_perm. now constructor.
Qed.







End Listings.

(** ** Who is shown what *)

Section Disclosure.
Context {rt : Runtime}.

Lemma getMessages_listed id w listed w' :
  Storage.getMessages id w = (Ok listed, w') ->
  forall m, In m listed -> In m (messages w) /\ inConversation id m.
Proof.
  intros Hrun m Hm.
  unfold Storage.getMessages, bind, statement in Hrun.
  assert (E : listed = Storage.orderByCreatedAt
                         (List.filter (Storage.messageOf id) (messages w))).
  { destruct (faults w) as [|[] f]; simpl in Hrun; now inversion Hrun. }
  subst listed.
  apply (Permutation_in _ (Permutation_sym (orderByCreatedAt_perm _))) in Hm.
  apply filter_In in Hm. destruct Hm as [H1 H2]. split; [exact H1|].
  now apply String.eqb_eq in H2.
Qed.

Lemma getConversations_listed userId w listed w' :
  Store.getConversations userId w = (Ok listed, w') ->
  forall c, In c listed -> In c (conversations w) /\ Conversation.userId c = userId.
Proof.
  intros Hrun c Hc.
  unfold Store.getConversations, bind, statement in Hrun.
  assert (E : listed = Store.orderByUpdatedAtDesc
                         (List.filter (Store.ownedBy userId) (conversations w))).
  { destruct (faults w) as [|[] f]; simpl in Hrun; now inversion Hrun. }
  subst listed.
  apply (Permutation_in _ (Permutation_sym (orderByUpdatedAtDesc_perm _))) in Hc.
  apply filter_In in Hc. destruct Hc as [H1 H2]. split; [exact H1|].
  now apply String.eqb_eq in H2.
Qed.

(** X9. Conversations and messages are shown to their owner only.  A
    response that carries a conversation carries a stored conversation of
    the caller; a response that carries messages carries stored messages of
    the requested conversation, which is the caller's; a response that
    carries a list of conversations carries stored conversations of the
    caller: whatever the request and whatever fails. *)
Theorem shown_to_owner_only (req : Request) (w : World) :
  (forall response w' c,
      Routes.getConversation req w = (Ok response, w') ->
      payload response = PConversation c ->
      In c (conversations w) /\ Auth.caller req = Some (Conversation.userId c))
  /\ (forall response w' listed,
         Routes.getMessages req w = (Ok response, w') ->
         payload response = PMessages listed ->
         (exists c,
             find (Storage.conversationIs (param_id req)) (conversations w)
             = Some c
             /\ Auth.caller req = Some (Conversation.userId c))
         /\ forall m,
              In m listed ->
              In m (messages w) /\ inConversation (param_id req) m)
  /\ (forall answer w' listed,
         Rest.getConversations req w = (Ok answer, w') ->
         Rest.json answer = Rest.JConversations listed ->
         exists userId,
           Auth.caller req = Some userId
           /\ forall c,
                In c listed ->
                In c (conversations w) /\ Conversation.userId c = userId).
Proof.
  destruct (Auth.caller req) as [userId|] eqn:Hauth.
  2:{ repeat split; intros; exfalso;
        match goal with
        | H : _ = (Ok _, _) |- _ =>
            unfold Routes.getConversation, Routes.getMessages,
              Rest.getConversations in H;
            rewrite ?requireAuth_general,
              ?(rest_requireAuth_rejects _ _ _ Hauth) in H;
            inversion H; subst
        end; simpl in *; discriminate. }
  split; [|split].
  - intros response w' c Hrun Hp. unfold Routes.getConversation in Hrun.
    rewrite (requireAuth_caller _ _ _ Hauth) in Hrun.
    unfold tryCatch, bind in Hrun.
    destruct (getConversation_cases (param_id req) w) as (w1 & Hs & [E|[e E]]);
      rewrite E in Hrun.
    + destruct (find _ _) as [c0|] eqn:Hfind.
      * destruct (String.eqb_spec (Conversation.userId c0) userId) as [Ho|Ho];
          simpl in Hrun; inversion Hrun; subst; simpl in Hp;
          [|discriminate].
        inversion Hp; subst. split; [|reflexivity].
        now apply find_some in Hfind.
      * inversion Hrun; subst. discriminate.
    + inversion Hrun; subst. discriminate.
  - intros response w' listed Hrun Hp. unfold Routes.getMessages in Hrun.
    rewrite (requireAuth_caller _ _ _ Hauth) in Hrun.
    unfold tryCatch in Hrun. unfold bind at 1 in Hrun.
    destruct (getConversation_cases (param_id req) w)
      as (w1 & (_ & _ & Hm & _) & [E|[e E]]); rewrite E in Hrun.
    + destruct (find _ _) as [c0|] eqn:Hfind.
      * destruct (String.eqb_spec (Conversation.userId c0) userId) as [Ho|Ho];
          simpl in Hrun.
        -- unfold bind in Hrun.
           destruct (Storage.getMessages (param_id req) w1)
             as [[l|e] w2] eqn:El; simpl in Hrun; inversion Hrun; subst;
             simpl in Hp; [|discriminate].
           inversion Hp; subst. split.
           ++ exists c0. now split.
           ++ intros m Hin.
              destruct (getMessages_listed _ _ _ _ El m Hin) as [H1 H2].
              rewrite Hm in H1. now split.
        -- inversion Hrun; subst. discriminate.
      * inversion Hrun; subst. discriminate.
    + inversion Hrun; subst. discriminate.
  - intros answer w' listed Hrun Hp. unfold Rest.getConversations in Hrun.
    rewrite (rest_requireAuth_caller _ _ _ _ Hauth) in Hrun.
    unfold tryCatch, bind in Hrun.
    destruct (Store.getConversations userId w) as [[l|e] w1] eqn:El;
      simpl in Hrun; inversion Hrun; subst; simpl in Hp; [|discriminate].
    inversion Hp; subst. exists userId. split; [reflexivity|].
    exact (getConversations_listed _ _ _ _ El).
Qed.

End Disclosure.

(** ** Deleting a conversation *)

Lemma othersKept_refl id w : othersKept id w w.
Proof. split; [reflexivity | now intros]. Qed.

Lemma othersKept_trans id a b c :
  othersKept id a b -> othersKept id b c -> othersKept id a c.
Proof.
  intros (U & H) (U' & H'). split; [congruence|].
  intros other Ho. destruct (H other Ho) as [H1 H2].
  destruct (H' other Ho) as [H1' H2']. split; congruence.
Qed.

Lemma sameTables_othersKept id w w' : sameTables w w' -> othersKept id w w'.
Proof.
  intros (U & C & Ms & _). split; [exact U|].
  intros other _. now rewrite C, Ms.
Qed.

Lemma filter_other {A} (key : A -> string) (id other : string) (l : list A) :
  other <> id ->
  List.filter (fun x => String.eqb (key x) other)
    (List.filter (fun x => negb (String.eqb (key x) id)) l)
  = List.filter (fun x => String.eqb (key x) other) l.
Proof.
  intros Hne. induction l as [|x l IH]; simpl; [reflexivity|].
  destruct (String.eqb_spec (key x) id) as [E|E]; simpl.
  - destruct (String.eqb_spec (key x) other) as [E'|E']; [congruence | exact IH].
  - now rewrite IH.
Qed.

Section Deleting.
Context {rt : Runtime}.

Lemma others_deleteConversation id :
  preserves (othersKept id) (Storage.deleteConversation id).
Proof.
  intros w. unfold Storage.deleteConversation, bind, statement.
  destruct (faults w) as [|[] [|[] f]] eqn:Hf; simpl; rewrite ?Hf; simpl;
    (split; [reflexivity|]); intros other Ho;
    unfold Storage.conversationIs, Storage.messageOf; simpl;
    rewrite ?(filter_other Conversation.id id other _ Ho),
            ?(filter_other Message.conversationId id other _ Ho);
    now split.
Qed.

(** X10. Deleting a conversation never touches the users, the
    conversations with another id or the messages of those, whoever asks
    and whatever fails; and a request of someone who does not own the
    conversation changes no table at all. *)
Theorem delete_leaves_others (req : Request) (w : World) :
  othersKept (param_id req) w (snd (Routes.deleteConversation req w))
  /\ (forall userId,
         Auth.caller req = Some userId ->
         (forall c,
             find (Storage.conversationIs (param_id req)) (conversations w)
             = Some c ->
             Conversation.userId c <> userId) ->
         sameTables w (snd (Routes.deleteConversation req w))).
Proof.
  split.
  - revert w.
    change (preserves (othersKept (param_id req)) (Routes.deleteConversation req)).
    unfold Routes.deleteConversation, Auth.requireAuth.
    pose proof (preserves_weaken sameTables (othersKept (param_id req))
                  (Storage.getConversation (param_id req))
                  (sameTables_othersKept _) (same_getConversation _)).
    pose proof (others_deleteConversation (param_id req)).
    walk (othersKept_refl (param_id req)) (othersKept_trans (param_id req)).
  - intros userId Hauth Hnot. unfold Routes.deleteConversation.
    rewrite (requireAuth_caller _ _ _ Hauth). unfold tryCatch.
    unfold bind at 1.
    destruct (getConversation_cases (param_id req) w) as (w1 & Hs & [E|[e E]]);
      rewrite E; [|exact Hs].
    destruct (find _ _) as [c|]; [|exact Hs].
    now rewrite (eqb_neq_true _ _ (Hnot c eq_refl)).
Qed.

(** X11. With the store available, the owner's deletion is answered 200,
    and from then on the conversation is gone for every caller: reading it,
    listing its messages and sending to it are answered 404. *)
Theorem deleted_is_gone (req : Request) (userId : string)
  (c : Conversation.t) (w : World) :
  available w ->
  Auth.caller req = Some userId ->
  find (Storage.conversationIs (param_id req)) (conversations w) = Some c ->
  Conversation.userId c = userId ->
  exists w',
    Routes.deleteConversation req w
    = (Ok {| status := 200;
             payload := PMessage "Conversation deleted successfully" |}, w')
    /\ available w'
    /\ forall later someone text,
         Auth.caller later = Some someone ->
         param_id later = param_id req ->
         field "content" (body later) = Some (JString text) ->
         text <> EmptyString ->
         let gone :=
           (Ok {| status := 404; payload := PMessage "Conversation not found" |},
            w') in
         Routes.getConversation later w' = gone
         /\ Routes.getMessages later w' = gone
         /\ Routes.deleteConversation later w' = gone
         /\ Routes.postMessage later w' = gone.
Proof.
  intros Hw Hauth Hfind Howner.
  set (w' := setConversations
               (List.filter (fun c => negb (Storage.conversationIs (param_id req) c))
                  (conversations w))
               (setMessages
                  (List.filter (fun m => negb (Storage.messageOf (param_id req) m))
                     (messages w)) w)).
  assert (Hdel : Storage.deleteConversation (param_id req) w = (Ok true, w')).
  { unfold Storage.deleteConversation, bind.
    rewrite (statement_available w Hw). simpl.
    unfold statement. simpl. rewrite Hw. simpl.
    rewrite filter_length_existsb.
    apply find_some in Hfind. destruct Hfind as [Hin Hc].
    replace (existsb _ _) with true; [reflexivity|].
    symmetry. apply existsb_exists. now exists c. }
  assert (Hw' : available w') by exact Hw.
  assert (Hgone : find (Storage.conversationIs (param_id req)) (conversations w')
                  = None) by apply find_filter_negb.
  exists w'. split; [|split; [exact Hw'|]].
  - unfold Routes.deleteConversation.
    rewrite (requireAuth_caller _ _ _ Hauth). unfold tryCatch.
    unfold bind at 1. rewrite (getConversation_available _ w Hw), Hfind.
    rewrite Howner, String.eqb_refl. simpl. unfold bind. now rewrite Hdel.
  - intros later someone text Hlater Hid Hfield Htext. cbv zeta.
    unfold Routes.getConversation, Routes.getMessages,
      Routes.deleteConversation, Routes.postMessage.
    rewrite !(requireAuth_caller _ _ _ Hlater), Hfield, (falsy_text _ Htext).
    simpl. unfold tryCatch. unfold bind.
    rewrite Hid, (getConversation_available _ w' Hw'), Hgone.
    repeat split.
Qed.

End Deleting.

(** ** More on the reply cascade *)

Section ReplyExtras.
Context {rt : Runtime}.

(** X12. The cascade leaves the reply undefined in one case only: the
    math rule is entered, the product pattern does not match and nothing is
    left of the text once it is stripped.  Every other text gets a reply. *)
Theorem reply_absent_iff (content : string) (w : World) :
  fst (Reply.generateReply content w) = Ok None
  <-> Reply.mathRule (Js.toLowerCase content) = true
      /\ Regex.mathMatch content = None
      /\ Regex.cleanMath content = EmptyString.
Proof.
  split.
  - unfold Reply.generateReply.
    destruct (Reply.mathRule _).
    + unfold tryCatch, Reply.mathAttempt.
      destruct (Regex.mathMatch content) as [[g1 g2]|]; [discriminate|].
      rewrite isMathText_cleanMath.
      destruct (Regex.cleanMath content); simpl; [now intros _|].
      destruct (evalMath _); discriminate.
    + destruct (Reply.greetingRule _); [discriminate|].
      destruct (Reply.statusRule _); [discriminate|].
      destruct (Reply.capabilityRule _); [discriminate|].
      destruct (Reply.gratitudeRule _); [discriminate|].
      destruct (Reply.timeRule _); discriminate.
  - intros (Hrule & Hmatch & Hclean).
    unfold Reply.generateReply, tryCatch, Reply.mathAttempt.
    now rewrite Hrule, Hmatch, Hclean.
Qed.

Lemma product_table (w : World) :
  List.forallb
    (fun a =>
       List.forallb (productChecked w a)
         (below (S (N.to_nat (lastFactor a)))))
    (below 1000)
  = true.
Proof. vm_compute. reflexivity. Qed.

Lemma In_below (n : nat) (a : N) : (a < N.of_nat n)%N -> In a (below n).
Proof.
  intros H. unfold below. apply in_map_iff. exists (N.to_nat a).
  split; [apply N2Nat.id|]. apply in_seq. lia.
Qed.

(** X13. For two naturals below 1000 whose product is below 1000, the
    question [a x b] is answered with the exact product, in decimal, the
    same on every platform whose locale writes Latin digits. *)
Theorem small_products_are_exact (a b : N) (w : World) :
  (a < 1000)%N -> (b < 1000)%N -> (a * b < 1000)%N ->
  Reply.generateReply (productQuestion a b) w
  = (Ok (Some (productAnswer a b)), w).
Proof.
  intros Ha Hb Hab.
  pose proof (product_table w) as T.
  rewrite forallb_forall in T.
  specialize (T a (In_below 1000 a Ha)).
  rewrite forallb_forall in T.
  assert (Hin : In b (below (S (N.to_nat (lastFactor a))))).
  { apply In_below. unfold lastFactor.
    destruct (N.eqb_spec a 0) as [->|Hne]; [lia|].
    assert (b <= 999 / a)%N; [|lia].
    apply N.div_le_lower_bound; [exact Hne | lia]. }
  specialize (T b Hin). unfold productChecked in T.
  destruct (generateReply_returns (productQuestion a b) w) as [r Hr].
  rewrite Hr in T |- *. simpl in T.
  destruct r as [reply|]; [|discriminate].
  apply String.eqb_eq in T. now subst.
Qed.

(** X14. A derived title has at most 53 characters, and it is longer than
    the content it is cut from exactly when the content has 51 or 52
    characters. *)
Theorem deriveTitle_length (content : string) :
  String.length (Routes.deriveTitle content)
  = (if (50 <? String.length content)%nat then 53 else String.length content)
  /\ String.length (Routes.deriveTitle content) <= 53
  /\ (String.length content < String.length (Routes.deriveTitle content)
      <-> 50 < String.length content < 53).
Proof.
  assert (L : forall a b, String.length (a ++ b) = String.length a + String.length b).
  { intros a b. induction a as [|c a IH]; simpl; [reflexivity | now rewrite IH]. }
  unfold Routes.deriveTitle.
  destruct (Nat.ltb_spec 50 (String.length content)) as [H|H].
  - rewrite L, length_substring0 by lia. simpl. repeat split; lia.
  - repeat split; lia.
Qed.

End ReplyExtras.

(** ** Accounts *)

Lemma find_app_none {A} (p : A -> bool) (l : list A) (x : A) :
  find p l = None -> find p (l ++ [x]) = if p x then Some x else None.
Proof.
  induction l as [|y l IH]; simpl; [reflexivity|].
  destruct (p y); [discriminate | exact IH].
Qed.


Section Accounts.
Context {rt : Runtime} {cr : Credentials}.

Lemma createUser_available userData w :
  available w ->
  Storage.createUser userData w
  = (Ok (registered userData w),
     setUsers (users w ++ [registered userData w])
       (setNextId (N.succ (nextId w)) w)).
Proof.
  intros Hw. unfold Storage.createUser, bind.
  now rewrite (statement_available w Hw).
Qed.

(** X15. Registering and logging in compose.  With the store available, a
    registration under an unused name is answered 200 with a token for the
    new user, and the store gains that user with the hash of the password;
    a login with the same name and password is then answered 200 with a
    token for the same user, provided the hash compares equal to the
    password it was made from. *)
Theorem register_then_login (req req' : Request) (userData : InsertUser)
  (credentials : LoginUser) (w : World) :
  available w ->
  insertUserSchema (body req) = Some userData ->
  find (Storage.userNamed (iu_username userData)) (users w) = None ->
  loginUserSchema (body req') = Some credentials ->
  lu_username credentials = iu_username userData ->
  lu_password credentials = iu_password userData ->
  bcryptCompare (iu_password userData) (bcryptHash (iu_password userData)) = true ->
  let u := registered userData w in
  exists w',
    Routes.register req w
    = (Ok {| status := 200;
             payload := PUserToken (User.id u) (User.username u)
                          (jwtSign (User.id u)) |}, w')
    /\ users w' = (users w ++ [u])%list
    /\ Rest.login req' w'
       = (Ok {| Rest.code := 200;
                Rest.json := Rest.JUserToken (User.id u) (User.username u)
                               (jwtSign (User.id u)) |}, w').
Proof.
  intros Hw Hparse Hnew Hparse' Hname Hpass Hcompare u.
  set (w' := setUsers (users w ++ [u]) (setNextId (N.succ (nextId w)) w)).
  assert (Hw' : available w') by exact Hw.
  exists w'. split; [|split; [reflexivity|]].
  - unfold Routes.register. rewrite Hparse. unfold tryCatch, bind.
    rewrite (getUserByUsername_available _ w Hw), Hnew.
    now rewrite (createUser_available userData w Hw).
  - unfold Rest.login. rewrite Hparse'.
    unfold tryCatch, Store.authenticateUser. unfold bind.
    rewrite (getUserByUsername_available _ w' Hw'), Hname.
    change (users w') with (users w ++ [u])%list.
    rewrite (find_app_none _ _ _ Hnew).
    unfold Storage.userNamed at 1. unfold u, registered. simpl.
    rewrite String.eqb_refl, Hpass. simpl. rewrite Hcompare. reflexivity.
Qed.

(** X16. A login is answered 200 only for a stored user whose stored hash
    the password compares equal to, and then with a token for that user;
    with the store available, an unknown name and a wrong password are
    answered alike, 401 with one and the same message, and nothing
    changes. *)
Theorem login_needs_matching_password (req : Request) (w : World) :
  (forall answer w' id name token,
      Rest.login req w = (Ok answer, w') ->
      Rest.json answer = Rest.JUserToken id name token ->
      exists credentials u,
        loginUserSchema (body req) = Some credentials
        /\ find (Storage.userNamed (lu_username credentials)) (users w) = Some u
        /\ bcryptCompare (lu_password credentials) (User.password u) = true
        /\ id = User.id u /\ name = User.username u /\ token = jwtSign (User.id u))
  /\ (forall credentials,
         available w ->
         loginUserSchema (body req) = Some credentials ->
         (forall u,
             find (Storage.userNamed (lu_username credentials)) (users w) = Some u ->
             bcryptCompare (lu_password credentials) (User.password u) = false) ->
         Rest.login req w
         = (Ok {| Rest.code := 401;
                  Rest.json := Rest.JMessage "Invalid username or password" |}, w)).
Proof.
  split.
  - intros answer w' id name token Hrun Hjson.
    unfold Rest.login in Hrun.
    destruct (loginUserSchema (body req)) as [credentials|];
      [|unfold tryCatch in Hrun; simpl in Hrun; inversion Hrun; subst;
        discriminate].
    exists credentials.
    unfold tryCatch, Store.authenticateUser, Storage.getUserByUsername, bind,
      statement in Hrun.
    destruct (faults w) as [|[] f]; simpl in Hrun;
      try (inversion Hrun; subst; discriminate);
      destruct (find _ (users w)) as [u|];
      try (inversion Hrun; subst; discriminate);
      destruct (bcryptCompare _ _) eqn:Hc; simpl in Hrun;
      inversion Hrun; subst; simpl in Hjson; try discriminate;
      inversion Hjson; subst; exists u; repeat split; assumption.
  - intros credentials Hw Hparse Hbad.
    unfold Rest.login. rewrite Hparse.
    unfold tryCatch, Store.authenticateUser. unfold bind.
    rewrite (getUserByUsername_available _ w Hw).
    destruct (find _ _) as [u|]; [|reflexivity].
    now rewrite (Hbad u eq_refl).
Qed.


End Accounts.

(** ** Creating and updating rows *)

Section Rows.
Context {rt : Runtime}.

Lemma createMessage_appends messageData w message w' :
  Storage.createMessage messageData w = (Ok message, w') ->
  messages w' = (messages w ++ [message])%list
  /\ Message.conversationId message = im_conversationId messageData
  /\ Message.createdAt message = now w.
Proof.
  intros Hrun.
  unfold Storage.createMessage, Storage.insertMessage,
    Storage.requireContent, Storage.updateConversation, bind, statement,
    newDate in Hrun.
  destruct (im_content messageData) as [text|];
    destruct (faults w) as [|[] [|[] f]] eqn:Hf; simpl in Hrun;
    rewrite ?Hf in Hrun; simpl in Hrun;
    inversion Hrun; subst; simpl; now repeat split.
Qed.

(** X18. A message that was created is listed: the next listing of its
    conversation contains it and is one longer than the conversation was,
    and the listing of any other conversation is not affected. *)
Theorem created_message_is_listed (messageData : InsertMessage)
  (message : Message.t) (w w1 : World) :
  Storage.createMessage messageData w = (Ok message, w1) ->
  (forall listed w2,
      Storage.getMessages (im_conversationId messageData) w1 = (Ok listed, w2) ->
      In message listed
      /\ List.length listed = S (messageCount (im_conversationId messageData) w))
  /\ (forall other,
         other <> im_conversationId messageData ->
         List.filter (Storage.messageOf other) (messages w1)
         = List.filter (Storage.messageOf other) (messages w)).
Proof.
  intros Hrun.
  destruct (createMessage_appends _ _ _ _ Hrun) as (Hm & Hid & _).
  split.
  - intros listed w2 Hl.
    assert (E : listed = Storage.orderByCreatedAt
                           (List.filter
                              (Storage.messageOf (im_conversationId messageData))
                              (messages w1))).
    { unfold Storage.getMessages, bind, statement in Hl.
      destruct (faults w1) as [|[] f]; simpl in Hl; now inversion Hl. }
    subst listed. rewrite Hm, filter_app. simpl.
    unfold Storage.messageOf at 2 4. rewrite Hid, String.eqb_refl. split.
    + apply (Permutation_in _ (orderByCreatedAt_perm _)).
      apply in_or_app. right. now left.
    + rewrite length_orderByCreatedAt, length_app. unfold messageCount.
      simpl. lia.
  - intros other Ho. rewrite Hm, filter_app. simpl.
    unfold Storage.messageOf at 2. rewrite Hid.
    destruct (String.eqb_spec (im_conversationId messageData) other) as [E|E];
      [now destruct Ho | apply app_nil_r].
Qed.


Lemma updateWhere_identity id updates date rows :
  map identity (Storage.updateWhere id updates date rows) = map identity rows.
Proof.
  unfold Storage.updateWhere.
  induction rows as [|c rows IH]; simpl; [reflexivity|].
  rewrite IH. now destruct (Storage.conversationIs id c).
Qed.



Lemma identities_refl w : identitiesKept w w.
Proof. now split. Qed.

Lemma identities_trans a b c :
  identitiesKept a b -> identitiesKept b c -> identitiesKept a c.
Proof. intros (U & I) (U' & I'). split; congruence. Qed.

Lemma sameTables_identities w w' : sameTables w w' -> identitiesKept w w'.
Proof. intros (U & C & _). split; [exact U | now rewrite C]. Qed.

Lemma identities_insertMessage messageData :
  preserves identitiesKept (Storage.insertMessage messageData).
Proof.
  intros w.
  unfold Storage.insertMessage, Storage.requireContent, bind, statement.
  destruct (im_content messageData), (faults w) as [|[] f]; now split.
Qed.

Lemma identities_updateConversation id updates :
  preserves identitiesKept (Storage.updateConversation id updates).
Proof.
  intros w. unfold Storage.updateConversation, bind, statement, newDate.
  destruct (faults w) as [|[] f]; simpl; split; try reflexivity;
    apply updateWhere_identity.
Qed.

(** X20. Sending a message changes no conversation beyond titles and
    updated timestamps: the rows, their order, their ids, owners and
    creation times are the same afterwards, and so are the users, whatever
    the request and whatever fails. *)
Theorem postMessage_keeps_identities (req : Request) (w : World) :
  identitiesKept w (snd (Routes.postMessage req w)).
Proof.
  revert w. change (preserves identitiesKept (Routes.postMessage req)).
  unfold Routes.postMessage, Routes.replyAndRecord, Routes.recoverReply,
    Storage.createMessage, Auth.requireAuth.
  pose proof (fun id => preserves_weaken sameTables identitiesKept
                (Storage.getConversation id)
                sameTables_identities (same_getConversation id)).
  pose proof (fun id => preserves_weaken sameTables identitiesKept
                (Storage.getMessages id)
                sameTables_identities (same_getMessages id)).
  pose proof (fun c => preserves_weaken sameTables identitiesKept
                (Reply.generateReply c)
                sameTables_identities (same_generateReply c)).
  pose proof identities_insertMessage.
  pose proof identities_updateConversation.
  walk identities_refl identities_trans.
Qed.

End Rows.

(** ** The error log of the client *)

Lemma logTimes_spaced (events : list (Client.Event * Z)) (last : Z) :
  spaced last (fst (Client.logTimes events last)).
Proof.
  revert last. induction events as [|[ev now] events IH]; intros last; simpl.
  - exact I.
  - unfold Client.listener.
    destruct (Z.ltb_spec Client.ERROR_THROTTLE_MS (now - last)) as [H|H].
    + specialize (IH now).
      destruct (Client.logTimes events now) as [times final]. simpl in *.
      split; [lia | exact IH].
    + specialize (IH last).
      now destruct (Client.logTimes events last) as [times final].
Qed.

(** X21. The client logs no two errors within a second of each other:
    in any sequence of error and rejection events, at any instants, every
    logged instant is more than 1000 ms after the logged instant before it,
    the first more than 1000 ms after the initial [lastErrorTime]; and an
    event more than 1000 ms after the last logged one is logged. *)
Theorem client_log_is_throttled (events : list (Client.Event * Z)) (last : Z) :
  spaced last (fst (Client.logTimes events last))
  /\ (forall ev now,
         (Client.ERROR_THROTTLE_MS
          < now - snd (Client.logTimes events last))%Z ->
         fst (Client.logTimes (events ++ [(ev, now)]) last)
         = (fst (Client.logTimes events last) ++ [now])%list).
Proof.
  split; [apply logTimes_spaced|].
  intros ev now. revert last.
  induction events as [|[ev0 t0] events IH]; intros last H; simpl in *.
  - unfold Client.listener.
    destruct (Z.ltb_spec Client.ERROR_THROTTLE_MS (now - last)); [reflexivity|lia].
  - destruct (Client.listener ev0 t0 last) as [effect last'].
    specialize (IH last').
    destruct (Client.logTimes events last') as [times final].
    destruct (Client.logTimes (events ++ [(ev, now)]) last') as [times' final'].
    simpl in *. rewrite (IH H). now destruct (Client.logged effect).
Qed.

(** ** The product pattern *)

Lemma append_nil_r (s : string) : s ++ EmptyString = s.
Proof. induction s as [|c s IH]; simpl; [reflexivity | now rewrite IH]. Qed.

Lemma length_append (a b : string) :
  String.length (a ++ b) = String.length a + String.length b.
Proof. induction a as [|c a IH]; simpl; [reflexivity | now rewrite IH]. Qed.

Lemma consumed_append (m rest : string) : Regex.consumed (m ++ rest) rest = m.
Proof.
  unfold Regex.consumed. rewrite length_append.
  replace (String.length m + String.length rest - String.length rest)
    with (String.length m) by lia.
  induction m as [|c m IH]; simpl.
  - now destruct rest.
  - now rewrite IH.
Qed.

(** What the matcher accepts at the head of a text is a match of the
    expression, and an expression without capturing groups records
    nothing. *)
Lemma run_sound (r : Regex.regex) :
  forall s caps k result,
    Regex.run r s caps k = Some result ->
    exists m rest caps',
      s = m ++ rest /\ denotes r m
      /\ (captureFree r = true -> caps' = caps)
      /\ k rest caps' = Some result.
Proof.
  induction r as [p|r1 IH1 r2 IH2|r1 IH1|r1 IH1|r1 IH1|r1 IH1];
    intros s caps k result H; simpl in H.
  - destruct s as [|c t]; [discriminate|].
    destruct (p c) eqn:E; [|discriminate].
    exists (String c EmptyString), t, caps.
    repeat split; [now constructor | exact H].
  - apply IH1 in H. destruct H as (m1 & s1 & caps1 & -> & D1 & F1 & H).
    apply IH2 in H. destruct H as (m2 & s2 & caps2 & -> & D2 & F2 & H).
    exists (m1 ++ m2), s2, caps2. rewrite append_assoc.
    repeat split; [now constructor | | exact H].
    simpl. intros F. apply andb_prop in F. destruct F as [Fa Fb].
    now rewrite (F2 Fb), (F1 Fa).
  - revert H. generalize (String.length s) as fuel. intros fuel.
    revert s caps.
    induction fuel as [|fuel IHf]; intros s caps H.
    + exists EmptyString, s, caps. repeat split; [constructor | exact H].
    + match type of H with
      | Regex.orElse ?first _ = _ => destruct first as [found|] eqn:E
      end; simpl in H.
      * rewrite <- E in H. clear E found.
        apply IH1 in H. destruct H as (m1 & s1 & caps1 & -> & D1 & F1 & H).
        destruct (String.length s1 <? String.length (m1 ++ s1))%nat;
          [|discriminate].
        apply IHf in H. destruct H as (m2 & s2 & caps2 & -> & D2 & F2 & H).
        exists (m1 ++ m2), s2, caps2. rewrite append_assoc.
        repeat split; [now apply denotes_star_cons | | exact H].
        simpl. intros F. now rewrite (F2 F), (F1 F).
      * exists EmptyString, s, caps. repeat split; [constructor | exact H].
  - destruct (Regex.run r1 s caps k) as [found|] eqn:E; simpl in H.
    + rewrite <- E in H. clear E found.
      apply IH1 in H. destruct H as (m & rest & caps' & -> & D & F & H).
      exists m, rest, caps'. repeat split; [now apply denotes_opt | exact F | exact H].
    + exists EmptyString, s, caps. repeat split; [constructor | exact H].
  - apply IH1 in H. destruct H as (m & rest & caps' & -> & D & F & H).
    exists m, rest, caps'. repeat split; [now constructor | exact F | exact H].
  - apply IH1 in H. destruct H as (m & rest & caps' & -> & D & F & H).
    exists m, rest, (caps' ++ [Regex.consumed (m ++ rest) rest])%list.
    repeat split; [now constructor | discriminate | exact H].
Qed.

(** The same for an expression without capturing groups. *)
Lemma run_plain (r : Regex.regex) s caps k result :
  captureFree r = true ->
  Regex.run r s caps k = Some result ->
  exists m rest, s = m ++ rest /\ denotes r m /\ k rest caps = Some result.
Proof.
  intros F H. apply run_sound in H.
  destruct H as (m & rest & caps' & -> & D & F' & H).
  rewrite (F' F) in H. now exists m, rest.
Qed.

Lemma search_sound (r : Regex.regex) (s : string) (caps : Regex.Captures) :
  Regex.search r s = Some caps ->
  exists before from,
    s = before ++ from
    /\ Regex.run r from [] (fun _ caps => Some caps) = Some caps.
Proof.
  induction s as [|c s IH]; simpl; intros H.
  - destruct (Regex.run r EmptyString [] _) eqn:E; [|discriminate].
    exists EmptyString, EmptyString. now rewrite E.
  - destruct (Regex.run r (String c s) [] _) eqn:E.
    + exists EmptyString, (String c s). now rewrite E.
    + simpl in H. destruct (IH H) as (before & from & -> & R).
      now exists (String c before), from.
Qed.

Lemma star_class (p : ascii -> bool) (s : string) :
  denotes (Regex.Star (Regex.Class p)) s -> Js.forallb p s = true.
Proof.
  intros D. remember (Regex.Star (Regex.Class p)) as r eqn:E.
  induction D as [| | |r a b Da _ Db IHb| | | |]; try discriminate;
    [reflexivity|].
  inversion E; subst. inversion Da; subst. simpl.
  now rewrite IHb, andb_true_r.
Qed.

Lemma plus_class (p : ascii -> bool) (s : string) :
  denotes (Regex.Plus (Regex.Class p)) s ->
  Js.isEmpty s = false /\ Js.forallb p s = true.
Proof.
  intros D. inversion D as [|r1 r2 a b Da Db| | | | | |]; subst.
  inversion Da; subst. apply star_class in Db. simpl.
  split; [reflexivity | now rewrite Db, andb_true_r].
Qed.

Lemma span_all (p : ascii -> bool) (s : string) :
  Js.forallb p s = true -> Js.span p s = (s, EmptyString).
Proof.
  induction s as [|c s IH]; simpl; [reflexivity|].
  intros H. apply andb_prop in H. destruct H as [-> H].
  now rewrite (IH H).
Qed.

Lemma span_until (p : ascii -> bool) (s : string) (c : ascii) (t : string) :
  Js.forallb p s = true -> p c = false ->
  Js.span p (s ++ String c t) = (s, String c t).
Proof.
  intros H Hc. induction s as [|d s IH]; simpl in *.
  - now rewrite Hc.
  - apply andb_prop in H. destruct H as [-> H]. now rewrite (IH H).
Qed.

Lemma dot_is_no_digit (c : ascii) :
  Regex.isDot c = true -> Regex.isDigit c = false.
Proof.
  unfold Regex.isDot, Regex.isDigit. intros H.
  apply N.eqb_eq in H. now rewrite H.
Qed.

(** The matches of [\d+(?:\.\d+)?] are numerals. *)
Lemma number_numeral (s : string) : denotes Regex.number s -> numeral s = true.
Proof.
  intros D. unfold Regex.number in D.
  inversion D as [|r1 r2 whole rest Dw Dr| | | | | |]; subst.
  apply plus_class in Dw. destruct Dw as [Hne Hall].
  unfold numeral.
  inversion Dr as [| | | |r|r a Dg| |]; subst.
  - rewrite append_nil_r, (span_all _ _ Hall), Hne. reflexivity.
  - inversion Dg as [| | | | | |r a' Dc|]; subst.
    inversion Dc as [|r1 r2 dot fraction Dd Df| | | | | |]; subst.
    inversion Dd as [p c Hc| | | | | | |]; subst.
    apply plus_class in Df. destruct Df as [Fne Fall]. simpl.
    rewrite (span_until _ _ _ _ Hall (dot_is_no_digit _ Hc)), Hne, Hc.
    unfold digits. now rewrite Fne, Fall.
Qed.

(** X22. What the product pattern captures comes from the text and is
    what [parseFloat] expects: the text is some prefix, the first capture,
    white space, one of [x], [X] and [*], white space, the second capture
    and a rest, and both captures are numerals, digits with possibly a dot
    and more digits. *)
Theorem mathMatch_captures_numerals (content g1 g2 : string) :
  Regex.mathMatch content = Some (g1, g2) ->
  numeral g1 = true /\ numeral g2 = true
  /\ exists before space1 times space2 rest,
       content = before ++ g1 ++ space1 ++ String times (space2 ++ g2 ++ rest)
       /\ Js.forallb Regex.isSpace space1 = true
       /\ Regex.isTimes times = true
       /\ Js.forallb Regex.isSpace space2 = true.
Proof.
  unfold Regex.mathMatch. intros H.
  destruct (Regex.search Regex.product content) as [caps|] eqn:S;
    [|discriminate].
  apply search_sound in S. destruct S as (before & from & -> & R).
  unfold Regex.product in R. cbn [Regex.run] in R.
  apply run_plain in R; [|reflexivity].
  destruct R as (m1 & s1 & -> & D1 & R). rewrite consumed_append in R.
  apply (run_plain (Regex.Star (Regex.Class Regex.isSpace))) in R;
    [|reflexivity].
  destruct R as (space1 & s2 & -> & W1 & R).
  destruct s2 as [|times s3]; [discriminate|].
  destruct (Regex.isTimes times) eqn:T; [|discriminate].
  apply (run_plain (Regex.Star (Regex.Class Regex.isSpace))) in R;
    [|reflexivity].
  destruct R as (space2 & s4 & -> & W2 & R).
  apply run_plain in R; [|reflexivity].
  destruct R as (m2 & rest & -> & D2 & R). rewrite consumed_append in R.
  inversion R; subst caps. simpl in H. inversion H; subst g1 g2.
  split; [now apply number_numeral|]. split; [now apply number_numeral|].
  exists before, space1, times, space2, rest.
  repeat split;
    [exact (star_class _ _ W1) | exact T | exact (star_class _ _ W2)].
Qed.

(** A text the product pattern matches holds a times sign. *)
Lemma mathMatch_times (content g1 g2 : string) :
  Regex.mathMatch content = Some (g1, g2) ->
  exists before times rest,
    content = before ++ String times rest /\ Regex.isTimes times = true.
Proof.
  unfold Regex.mathMatch. intros H.
  destruct (Regex.search Regex.product content) as [caps|] eqn:S;
    [|discriminate].
  apply search_sound in S. destruct S as (before & from & -> & R).
  apply run_sound in R. destruct R as (m & rest & caps' & -> & D & _ & _).
  unfold Regex.product in D.
  inversion D as [|r1 r2 first m1 _ D1| | | | | |]; subst.
  inversion D1 as [|r1 r2 space1 m2 _ D2| | | | | |]; subst.
  inversion D2 as [|r1 r2 sign m3 D3 _| | | | | |]; subst.
  inversion D3 as [p times T| | | | | | |]; subst.
  exists (before ++ first ++ space1), times, (m3 ++ rest).
  split; [|exact T]. rewrite !append_assoc. reflexivity.
Qed.

Lemma toLowerCase_append (a b : string) :
  Js.toLowerCase (a ++ b) = Js.toLowerCase a ++ Js.toLowerCase b.
Proof. induction a as [|c a IH]; simpl; [reflexivity | now rewrite IH]. Qed.

Lemma includes_char (a : string) (c : ascii) (b : string) :
  Js.includes (a ++ String c b) (String c EmptyString) = true.
Proof. exact (includes_infix a (String c EmptyString) b). Qed.

Lemma lower_times (c : ascii) :
  Regex.isTimes c = true ->
  Js.lowerChar c = "x"%char \/ Js.lowerChar c = "*"%char.
Proof.
  destruct c as [[] [] [] [] [] [] [] []]; vm_compute; intros H;
    try discriminate; auto.
Qed.

Section ProductRule.
Context {rt : Runtime}.

(** X23. The condition of the math rule never hides a product: a text
    the product pattern matches is answered with the product of the two
    captures, whatever else it contains and whatever rule its words would
    match. *)
Theorem products_are_answered (content g1 g2 : string) (w : World) :
  Regex.mathMatch content = Some (g1, g2) ->
  Reply.generateReply content w = (Ok (Some (Reply.product g1 g2)), w).
Proof.
  intros H.
  destruct (mathMatch_times _ _ _ H) as (before & times & rest & E & T).
  assert (Hrule : Reply.mathRule (Js.toLowerCase content) = true).
  { rewrite E, toLowerCase_append. simpl.
    unfold Reply.mathRule.
    destruct (lower_times _ T) as [-> | ->]; rewrite includes_char.
    - reflexivity.
    - now rewrite orb_true_r. }
  unfold Reply.generateReply. rewrite Hrule.
  unfold tryCatch, Reply.mathAttempt. now rewrite H.
Qed.

End ProductRule.

(** ** The token of a registration *)

Lemma bearerToken_header (t : string) :
  Auth.bearerToken (Some ("Bearer " ++ t)) = Some t.
Proof.
  unfold Auth.bearerToken. rewrite prefix_append.
  change 7 with (String.length "Bearer ").
  now rewrite substring_after.
Qed.

Section Tokens.
Context {rt : Runtime} {cr : Credentials}.

(** X24. The token of a registration is the token of the new user.  With
    the store available, after a registration under an unused name a request
    that carries the token of the response is a request of the new user, and
    [GET /api/auth/me] answers it 200 with the id and the name that were
    registered: provided the id is new and the platform verifies the tokens
    it signs. *)
Theorem register_then_me (req later : Request) (userData : InsertUser)
  (w : World) :
  let u := registered userData w in
  available w ->
  insertUserSchema (body req) = Some userData ->
  find (Storage.userNamed (iu_username userData)) (users w) = None ->
  find (Store.userIs (User.id u)) (users w) = None ->
  jwtSign (User.id u) <> EmptyString ->
  jwtVerify (jwtSign (User.id u)) = Some (User.id u) ->
  authorization later = Some ("Bearer " ++ jwtSign (User.id u)) ->
  exists w',
    Routes.register req w
    = (Ok {| status := 200;
             payload := PUserToken (User.id u) (User.username u)
                          (jwtSign (User.id u)) |}, w')
    /\ Auth.caller later = Some (User.id u)
    /\ Rest.me later w'
       = (Ok {| Rest.code := 200;
                Rest.json := Rest.JUser (User.id u) (User.username u) |}, w').
Proof.
  intros u Hw Hparse Hnew Hfresh Htoken Hverify Hheader.
  set (w' := setUsers (users w ++ [u]) (setNextId (N.succ (nextId w)) w)).
  assert (Hw' : available w') by exact Hw.
  assert (Hcaller : Auth.caller later = Some (User.id u)).
  { unfold Auth.caller. rewrite Hheader, bearerToken_header.
    destruct (jwtSign (User.id u)); [now destruct Htoken | exact Hverify]. }
  exists w'. split; [|split; [exact Hcaller|]].
  - unfold Routes.register. rewrite Hparse. unfold tryCatch, bind.
    rewrite (getUserByUsername_available _ w Hw), Hnew.
    now rewrite (createUser_available userData w Hw).
  - unfold Rest.me. rewrite (rest_requireAuth_caller _ _ _ _ Hcaller).
    unfold tryCatch, Store.getUser, bind.
    rewrite (statement_available w' Hw'). simpl.
    rewrite (find_app_none _ _ _ Hfresh).
    unfold Store.userIs at 1. now rewrite String.eqb_refl.
Qed.

End Tokens.

(** ** The further properties on the example store *)

Lemma postMessage_requires_text_witness :
  Routes.postMessage (rt := Demo.runtime) (Demo.request "u1" "c1" [])
    Demo.world
  = (Ok {| status := 400; payload := PMessage "Message content is required" |},
     Demo.world).
Proof.
  apply (proj1 (postMessage_requires_text (rt := Demo.runtime)
                  (Demo.request "u1" "c1" []) "u1" Demo.world eq_refl)).
  intros text H. discriminate H.
Defined.

Lemma postMessage_stores_for_owner_witness :
  users (snd (Routes.postMessage (rt := Demo.runtime)
                (Demo.request "u2" "c1" (Demo.saying "hello")) Demo.world))
  = users Demo.world.
Proof.
  apply (proj1 (postMessage_stores_for_owner (rt := Demo.runtime)
                  (Demo.request "u2" "c1" (Demo.saying "hello")) "u2"
                  Demo.world eq_refl)).
Defined.



Lemma shown_to_owner_only_witness :
  exists c,
    find (Storage.conversationIs "c1") (conversations Demo.chatting) = Some c
    /\ Auth.caller (rt := Demo.runtime) (Demo.request "u1" "c1" [])
       = Some (Conversation.userId c).
Proof.
  apply (proj1 (proj1 (proj2 (shown_to_owner_only (rt := Demo.runtime)
                                (Demo.request "u1" "c1" []) Demo.chatting))
                  {| status := 200;
                     payload := PMessages (messages Demo.chatting) |}
                  Demo.chatting (messages Demo.chatting) eq_refl eq_refl)).
Defined.

Lemma delete_leaves_others_witness :
  sameTables Demo.chatting
    (snd (Routes.deleteConversation (rt := Demo.runtime)
            (Demo.request "u2" "c1" []) Demo.chatting)).
Proof.
  apply (proj2 (delete_leaves_others (rt := Demo.runtime)
                  (Demo.request "u2" "c1" []) Demo.chatting) "u2" eq_refl).
  intros c H. inversion H. discriminate.
Defined.

Lemma deleted_is_gone_witness :
  exists w',
    Routes.deleteConversation (rt := Demo.runtime)
      (Demo.request "u1" "c1" []) Demo.chatting
    = (Ok {| status := 200;
             payload := PMessage "Conversation deleted successfully" |}, w')
    /\ Routes.getMessages (rt := Demo.runtime) (Demo.request "u1" "c1" []) w'
       = (Ok {| status := 404; payload := PMessage "Conversation not found" |},
          w').
Proof.
  destruct (deleted_is_gone (rt := Demo.runtime) (Demo.request "u1" "c1" [])
              "u1"
              (Conversation.mk "c1" "u1" "hello" 1699999990000 1699999995000)
              Demo.chatting eq_refl eq_refl eq_refl eq_refl)
    as (w' & Hrun & _ & Hgone).
  exists w'. split; [exact Hrun|].
  apply (Hgone (Demo.request "u1" "c1" (Demo.saying "hello")) "u1" "hello"
           eq_refl eq_refl eq_refl).
  discriminate.
Defined.

Lemma reply_absent_iff_witness :
  fst (Reply.generateReply (rt := Demo.runtime) "explain" Demo.world)
  = Ok None.
Proof.
  apply (proj2 (reply_absent_iff (rt := Demo.runtime) "explain" Demo.world)).
  repeat split.
Defined.

Lemma small_products_are_exact_witness :
  Reply.generateReply (rt := Demo.runtime) "12 x 4" Demo.world
  = (Ok (Some ("The answer is: **48**" ++ Js.nl ++ Js.nl ++
               "Calculation: 12 Ã— 4 = 48")), Demo.world).
Proof.
  apply (small_products_are_exact (rt := Demo.runtime) 12 4 Demo.world);
    reflexivity.
Defined.

Lemma register_then_login_witness :
  exists w',
    Routes.register (rt := Demo.runtime)
      {| authorization := None; param_id := EmptyString;
         body := DemoLogin.account "carol" "pw" |} Demo.world
    = (Ok {| status := 200; payload := PUserToken "3" "carol" "jwt.3" |}, w')
    /\ Rest.login (rt := Demo.runtime) (cr := DemoLogin.credentials)
         {| authorization := None; param_id := EmptyString;
            body := DemoLogin.account "carol" "pw" |} w'
       = (Ok {| Rest.code := 200;
                Rest.json := Rest.JUserToken "3" "carol" "jwt.3" |}, w').
Proof.
  destruct (register_then_login (rt := Demo.runtime)
              (cr := DemoLogin.credentials)
              {| authorization := None; param_id := EmptyString;
                 body := DemoLogin.account "carol" "pw" |}
              {| authorization := None; param_id := EmptyString;
                 body := DemoLogin.account "carol" "pw" |}
              {| iu_username := "carol"; iu_password := "pw" |}
              {| lu_username := "carol"; lu_password := "pw" |}
              Demo.world eq_refl eq_refl eq_refl eq_refl eq_refl eq_refl
              eq_refl)
    as (w' & Hregister & _ & Hlogin).
  exists w'. split; [exact Hregister | exact Hlogin].
Defined.

Lemma login_needs_matching_password_witness :
  Rest.login (rt := Demo.runtime) (cr := DemoLogin.credentials)
    {| authorization := None; param_id := EmptyString;
       body := DemoLogin.account "alice" "guess" |} Demo.world
  = (Ok {| Rest.code := 401;
           Rest.json := Rest.JMessage "Invalid username or password" |},
     Demo.world)
  /\ Rest.login (rt := Demo.runtime) (cr := DemoLogin.credentials)
       {| authorization := None; param_id := EmptyString;
          body := DemoLogin.account "nobody" "secret" |} Demo.world
     = (Ok {| Rest.code := 401;
              Rest.json := Rest.JMessage "Invalid username or password" |},
        Demo.world).
Proof.
  split.
  - apply (proj2 (login_needs_matching_password (rt := Demo.runtime)
                    (cr := DemoLogin.credentials)
                    {| authorization := None; param_id := EmptyString;
                       body := DemoLogin.account "alice" "guess" |}
                    Demo.world)
             {| lu_username := "alice"; lu_password := "guess" |}
             eq_refl eq_refl).
    intros u H. inversion H. reflexivity.
  - apply (proj2 (login_needs_matching_password (rt := Demo.runtime)
                    (cr := DemoLogin.credentials)
                    {| authorization := None; param_id := EmptyString;
                       body := DemoLogin.account "nobody" "secret" |}
                    Demo.world)
             {| lu_username := "nobody"; lu_password := "secret" |}
             eq_refl eq_refl).
    intros u H. discriminate H.
Defined.


Lemma created_message_is_listed_witness :
  In (insertedMessage "c1" "thanks" user Demo.chatting)
    (messages Demo.chatting
     ++ [insertedMessage "c1" "thanks" user Demo.chatting])%list
  /\ List.length
       (messages Demo.chatting
        ++ [insertedMessage "c1" "thanks" user Demo.chatting])%list
     = 3.
Proof.
  apply (proj1 (created_message_is_listed
                  {| im_conversationId := "c1"; im_content := Some "thanks";
                     im_role := user |}
                  (insertedMessage "c1" "thanks" user Demo.chatting)
                  Demo.chatting
                  (afterCreate
                     (insertedMessage "c1" "thanks" user Demo.chatting)
                     Demo.chatting)
                  eq_refl)
           (messages Demo.chatting
            ++ [insertedMessage "c1" "thanks" user Demo.chatting])%list
           (afterCreate (insertedMessage "c1" "thanks" user Demo.chatting)
              Demo.chatting)
           eq_refl).
Defined.


Lemma client_log_is_throttled_witness :
  fst (Client.logTimes
         [(Client.ErrorEvent, 5000%Z); (Client.UnhandledRejection, 5400%Z);
          (Client.ErrorEvent, 6001%Z)] 0)
  = [5000%Z; 6001%Z].
Proof.
  apply (proj2 (client_log_is_throttled
                  [(Client.ErrorEvent, 5000%Z);
                   (Client.UnhandledRejection, 5400%Z)] 0)
           Client.ErrorEvent 6001%Z).
  reflexivity.
Defined.

Lemma mathMatch_captures_numerals_witness :
  numeral "5.25" = true /\ numeral "3" = true.
Proof.
  destruct (mathMatch_captures_numerals "1.5.25 X3.x" "5.25" "3" eq_refl)
    as (H1 & H2 & _).
  split; [exact H1 | exact H2].
Defined.

Lemma products_are_answered_witness :
  Reply.generateReply (rt := Demo.runtime) "hello, what is 12 x 4?" Demo.world
  = (Ok (Some (Reply.product (rt := Demo.runtime) "12" "4")), Demo.world).
Proof.
  apply (products_are_answered (rt := Demo.runtime)
           "hello, what is 12 x 4?" "12" "4" Demo.world).
  reflexivity.
Defined.

Lemma register_then_me_witness :
  exists w',
    Routes.register (rt := Demo.runtime)
      {| authorization := None; param_id := EmptyString;
         body := DemoLogin.account "carol" "pw" |} Demo.world
    = (Ok {| status := 200; payload := PUserToken "3" "carol" "jwt.3" |}, w')
    /\ Rest.me (rt := Demo.runtime)
         {| authorization := Some "Bearer jwt.3"; param_id := EmptyString;
            body := [] |} w'
       = (Ok {| Rest.code := 200; Rest.json := Rest.JUser "3" "carol" |}, w').
Proof.
  destruct (register_then_me (rt := Demo.runtime)
              {| authorization := None; param_id := EmptyString;
                 body := DemoLogin.account "carol" "pw" |}
              {| authorization := Some "Bearer jwt.3";
                 param_id := EmptyString; body := [] |}
              {| iu_username := "carol"; iu_password := "pw" |}
              Demo.world eq_refl eq_refl eq_refl eq_refl
              ltac:(discriminate) eq_refl eq_refl)
    as (w' & Hregister & _ & Hme).
  exists w'. split; [exact Hregister | exact Hme].
Defined.
